(** * Folding wall: control fusion and fold geometry

    A shallow embedding of the per-frame core of the folding-wall
    application:

      - [src/components/HandController.tsx]  the hand-pose derivation
        ([predictWebcam]) and the application state machine ([App]);
      - [src/components/Scene3D.tsx]         [handleHandUpdate];
      - [src/components/FoldStrip.tsx]       the [useFrame] callback of
        [ConnectedFoldingWall];
      - [src/types.ts]                       [AppState];
      - [src/services/geminiService.ts]      [analyzeSelfieMood].

    JavaScript numbers are IEEE binary64 values.  The hand-pose derivation
    is written once over an interface of the arithmetic it uses
    ([JSNumber]) and read at two instances: the real numbers, where the
    algebraic laws of the derivation are stated, and Rocq's primitive
    binary64 floats, where division by zero, infinities and NaN behave as
    they do in the running program.  The fold geometry uses [Math.sin] and
    [Math.cos] and is read over the real numbers. *)

From Stdlib Require Import ZArith Reals Lra Lia List Bool String.
From Stdlib Require PrimFloat Uint63.
From stdpp Require Import base tactics list.

(** ** The arithmetic of JavaScript numbers used by the source *)

Class JSNumber (num : Type) : Type := {
  ofZ : Z -> num;
  nadd : num -> num -> num;
  nsub : num -> num -> num;
  nmul : num -> num -> num;
  ndiv : num -> num -> num;
  nneg : num -> num;
  Math_sqrt : num -> num;
  Math_max : num -> num -> num;
  Math_min : num -> num -> num
}.

Declare Scope js_scope.
Delimit Scope js_scope with js.
Infix "+" := nadd : js_scope.
Infix "-" := nsub : js_scope.
Infix "*" := nmul : js_scope.
Infix "/" := ndiv : js_scope.
Notation "- x" := (nneg x) : js_scope.

(** A decimal literal [n/10^k] of the source, e.g. [0.9] as [dec 9 10]:
    on binary64 the correctly rounded quotient of two small integers is
    the double nearest to the decimal, which is what the literal denotes. *)
Definition dec {num : Type} `{!JSNumber num} (n d : Z) : num := (ofZ n / ofZ d)%js.

(** [Math.pow(x, 2)]. *)
Definition Math_pow2 {num : Type} `{!JSNumber num} (x : num) : num := (x * x)%js.

(** The ideal instance: real numbers.  Division of reals is total in
    Rocq ([x / 0 = 0]) where the source yields an infinity or NaN, so a
    statement read at this instance keeps the divisor away from 0. *)
#[export] Instance JSNumber_R : JSNumber R := {|
  ofZ := IZR;
  nadd := Rplus;
  nsub := Rminus;
  nmul := Rmult;
  ndiv := Rdiv;
  nneg := Ropp;
  Math_sqrt := sqrt;
  Math_max := Rmax;
  Math_min := Rmin
|}.

(** The machine instance: binary64. [Math.max] and [Math.min] return NaN
    as soon as one argument is NaN, and order [-0] below [+0]. *)
Module F64.
Import PrimFloat.

Definition ofZ (n : Z) : float :=
  match n with
  | Z0 => zero
  | Zpos _ => of_uint63 (Uint63.of_Z n)
  | Zneg p => opp (of_uint63 (Uint63.of_Z (Zpos p)))
  end.

Definition max (a b : float) : float :=
  if is_nan a || is_nan b then nan
  else if ltb a b then b
  else if ltb b a then a
  else if get_sign a then b else a.

Definition min (a b : float) : float :=
  if is_nan a || is_nan b then nan
  else if ltb a b then a
  else if ltb b a then b
  else if get_sign a then a else b.

Definition is_finite (a : float) : bool :=
  negb (is_nan a) && negb (is_infinity a).
End F64.

#[export] Instance JSNumber_F64 : JSNumber PrimFloat.float := {|
  ofZ := F64.ofZ;
  nadd := PrimFloat.add;
  nsub := PrimFloat.sub;
  nmul := PrimFloat.mul;
  ndiv := PrimFloat.div;
  nneg := PrimFloat.opp;
  Math_sqrt := PrimFloat.sqrt;
  Math_max := F64.max;
  Math_min := F64.min
|}.

(** [THREE.MathUtils.lerp(x, y, t)] of three.js: [(1 - t) * x + t * y]. *)
Module MathUtils.
Definition lerp (x y t : R) : R := ((1 - t) * x + t * y)%R.
End MathUtils.

(** ** [src/types.ts] *)

Inductive AppState : Set := IDLE | CAPTURING | PROCESSING | INTERACTIVE.

#[export] Instance AppState_eq_dec : EqDecision AppState.
Proof. solve_decision. Defined.

(** ** Records of the source *)

(** A normalized landmark of the hand landmarker: [{x, y, z}]. *)
Module Landmark.
Record t (num : Type) : Type := mk { x : num; y : num; z : num }.
Arguments mk {num} _ _ _.
Arguments x {num} _.
Arguments y {num} _.
Arguments z {num} _.
End Landmark.

(** [interface HandControlData] of [HandController.tsx]. *)
Module HandControlData.
Record t (num : Type) : Type := mk {
  compression : num;   (* 0 (flat) to 1 (folded) *)
  x : num;             (* -1 to 1 *)
  y : num;             (* -1 to 1 *)
  isTracking : bool
}.
Arguments mk {num} _ _ _ _.
Arguments compression {num} _.
Arguments x {num} _.
Arguments y {num} _.
Arguments isTracking {num} _.
End HandControlData.

(** [interface FoldControlData] of [FoldStrip.tsx]: the content of
    [controlRef.current] and of [currentStats.current]. *)
Module FoldControlData.
Record t : Type := mk { compression : R; tiltX : R; tiltY : R }.
End FoldControlData.

(** ** [src/components/HandController.tsx]: the hand-pose derivation *)

Module HandController.

Section Derivation.
Context {num : Type} `{!JSNumber num}.
Local Open Scope js_scope.

(** Distances of lines 77-83. *)
Definition handSize (wrist middleMcp : Landmark.t num) : num :=
  Math_sqrt (Math_pow2 (Landmark.x middleMcp - Landmark.x wrist)
             + Math_pow2 (Landmark.y middleMcp - Landmark.y wrist)).

Definition extension (wrist middleTip : Landmark.t num) : num :=
  Math_sqrt (Math_pow2 (Landmark.x middleTip - Landmark.x wrist)
             + Math_pow2 (Landmark.y middleTip - Landmark.y wrist)).

(** Line 91: [1 - Math.max(0, Math.min(1, (ratio - 0.9) / 0.8))]. *)
Definition compressionOfRatio (ratio : num) : num :=
  ofZ 1 - Math_max (ofZ 0) (Math_min (ofZ 1) ((ratio - dec 9 10) / dec 8 10)).

(** The body of [predictWebcam] once the landmarker has returned
    [results.landmarks] (lines 68-109): the argument is that array of
    hands, the result is the argument of the single [onUpdate] call.
    [None] is the [TypeError] of reading [.x] of a missing landmark. *)
Definition predictWebcam (results : list (list (Landmark.t num)))
  : option (HandControlData.t num) :=
  match results with
  | landmarks :: _ =>
      wrist ← landmarks !! 0%nat;
      middleTip ← landmarks !! 12%nat;
      middleMcp ← landmarks !! 9%nat;
      let ratio := extension wrist middleTip / handSize wrist middleMcp in
      let compression := compressionOfRatio ratio in
      let x := (ofZ 1 - Landmark.x middleMcp) * ofZ 2 - ofZ 1 in
      let y := - (Landmark.y middleMcp * ofZ 2 - ofZ 1) in
      Some (HandControlData.mk compression x y true)
  | [] =>
      Some (HandControlData.mk (ofZ 0) (ofZ 0) (ofZ 0) false)
  end.
End Derivation.

End HandController.

(** ** [src/components/Scene3D.tsx]: the shared control cell *)

Module Scene3D.

(** [useRef({ compression: 0.0, tiltX: 0, tiltY: 0 })]. *)
Definition controlRef_init : FoldControlData.t :=
  FoldControlData.mk 0 0 0.

Definition handleHandUpdate (controlRef : FoldControlData.t)
    (data : HandControlData.t R) : FoldControlData.t :=
  if HandControlData.isTracking data then
    FoldControlData.mk (HandControlData.compression data)
                       (HandControlData.x data)
                       (HandControlData.y data)
  else
    (* When hand tracking is lost, reset these values to 0. *)
    FoldControlData.mk 0 0 0.
End Scene3D.

(** ** [src/components/FoldStrip.tsx]: the per-frame callback *)

Module FoldStrip.
Local Open Scope R_scope.

(** One vertex of the position attribute: [(x, y, z)]. *)
Definition Vec3 : Type := (R * R * R)%type.

Definition vx (v : Vec3) : R := v.1.1.
Definition vy (v : Vec3) : R := v.1.2.
Definition vz (v : Vec3) : R := v.2.

(** [pointer] of [useThree()]: [{x, y}]. *)
Record Pointer : Type := mkPointer { pointer_x : R; pointer_y : R }.

(** What a frame reads and writes besides its inputs:
    [currentStats.current], the position attribute of the mesh geometry
    and the mesh rotation. *)
Record FrameState : Type := mkFrameState {
  currentStats : FoldControlData.t;
  position : list Vec3;
  rotation_x : R;
  rotation_y : R
}.

(** The position attribute of [new THREE.PlaneGeometry(width, height,
    widthSegments, 1)] as three.js builds it: two rows of
    [widthSegments + 1] vertices, the upper row first. *)
Definition PlaneGeometry (width height : R) (widthSegments : nat) : list Vec3 :=
  let row (yv : R) :=
    map (fun ix : nat =>
           (INR ix * (width / INR widthSegments) - width / 2, yv, 0))
        (seq 0 (S widthSegments)) in
  row (height / 2) ++ row (- (height / 2)).

(** [positionAttribute.setXYZ(index, x, y, z)]: a write past the end of
    the typed array is dropped. *)
Definition setXYZ (attr : list Vec3) (index : nat) (x y z : R) : list Vec3 :=
  <[index := (x, y, z)]> attr.

(** Lines 56-58: smoothing of the hand inputs. *)
Definition smooth (cur target : FoldControlData.t) : FoldControlData.t :=
  FoldControlData.mk
    (MathUtils.lerp (FoldControlData.compression cur) (FoldControlData.compression target) 0.1)
    (MathUtils.lerp (FoldControlData.tiltX cur) (FoldControlData.tiltX target) 0.05)
    (MathUtils.lerp (FoldControlData.tiltY cur) (FoldControlData.tiltY target) 0.05).

(** Line 67. *)
Definition mouseCompression (pointer : Pointer) : R := Rabs (pointer_x pointer).

(** Line 70, with [stats] the smoothed state of this frame. *)
Definition effectiveCompression (stats : FoldControlData.t) (pointer : Pointer) : R :=
  Rmax (FoldControlData.compression stats) (mouseCompression pointer).

Section Wall.
(** The props of [ConnectedFoldingWall] and its memoised noise table
    ([Float32Array] of [strips] values of [Math.random()]). *)
Variables (width height : R) (strips : nat) (noiseOffsets : list R).

Definition segWidth : R := width / INR strips.

Definition dir (i : nat) : R := if Nat.even i then 1 else -1.

(** [noiseOffsets[i]]; the loop reads it for [i < strips] only, inside
    the table. *)
Definition noise (i : nat) : R := nth i noiseOffsets 0.

Definition wave (time : R) (i : nat) : R :=
  sin (time * 1.5 + INR i * 0.3) * 0.15.

Definition baseAngle (ec time : R) (i : nat) : R :=
  ec * 1.3 + wave time i * 0.1.

(** Line 90. *)
Definition angle (ec time : R) (i : nat) : R :=
  dir i * Rmin (PI / 2.05) (baseAngle ec time i + noise i * 0.1 * ec).

(** The state of the first loop: [currentX], [xPositions],
    [zPositions]. *)
Definition Walk : Type := (R * list R * list R)%type.

(** One iteration of the loop of lines 79-98. *)
Definition walkStep (ec time : R) (w : Walk) (i : nat) : Walk :=
  let '(currentX, xPositions, zPositions) := w in
  let a := angle ec time i in
  let dx := segWidth * cos a in
  let dz := segWidth * sin a in
  let currentX := currentX + dx in
  (currentX, xPositions ++ [currentX], zPositions ++ [List.last zPositions 0 + dz]).

Definition walk (ec time : R) : Walk :=
  fold_left (walkStep ec time) (seq 0 strips) (0, [0], [0]).

Definition xPositions (ec time : R) : list R := (walk ec time).1.2.
Definition zPositions (ec time : R) : list R := (walk ec time).2.

(** Closed forms of the boundary positions, used to state what the
    loop accumulates: the sums of the first [i] steps. *)
Fixpoint xAt (ec time : R) (i : nat) : R :=
  match i with
  | O => 0
  | S k => xAt ec time k + segWidth * cos (angle ec time k)
  end.

Fixpoint zAt (ec time : R) (i : nat) : R :=
  match i with
  | O => 0
  | S k => zAt ec time k + segWidth * sin (angle ec time k)
  end.

(** Lines 100-101. *)
Definition totalCurrentWidth (ec time : R) : R := List.last (xPositions ec time) 0.
Definition offsetX (ec time : R) : R := - totalCurrentWidth ec time / 2.

(** One iteration of the loop of lines 103-109. *)
Definition writeStep (ec time : R) (attr : list Vec3) (i : nat) : list Vec3 :=
  let x := nth i (xPositions ec time) 0 + offsetX ec time in
  let z := nth i (zPositions ec time) 0 in
  let attr := setXYZ attr i x (height / 2) z in
  setXYZ attr (i + strips + 1) x (- height / 2) z.

Definition writeVertices (ec time : R) (attr : list Vec3) : list Vec3 :=
  fold_left (writeStep ec time) (seq 0 (S strips)) attr.

(** The callback of [useFrame] (lines 43-126) for a mounted mesh. *)
Definition useFrame (controlRef : FoldControlData.t) (pointer : Pointer)
    (time : R) (s : FrameState) : FrameState :=
  let stats := smooth (currentStats s) controlRef in
  let ec := effectiveCompression stats pointer in
  let attr := writeVertices ec time (position s) in
  let combinedTiltX := FoldControlData.tiltY stats + pointer_y pointer * 0.3 in
  let combinedTiltY := FoldControlData.tiltX stats + pointer_x pointer * 0.2 in
  mkFrameState stats attr
    (MathUtils.lerp (rotation_x s) (combinedTiltX * 0.5) 0.1)
    (MathUtils.lerp (rotation_y s) (combinedTiltY * 0.5) 0.1).

(** The mesh as mounted: plane geometry, zero rotation,
    [currentStats = {0, 0, 0}]. *)
Definition mounted : FrameState :=
  mkFrameState (FoldControlData.mk 0 0 0) (PlaneGeometry width height strips) 0 0.

(** A run of frames: each frame reads the control cell, the pointer
    and the clock. *)
Definition frames (inputs : list (FoldControlData.t * Pointer * R))
    (s : FrameState) : FrameState :=
  fold_left (fun s '(c, p, t) => useFrame c p t s) inputs s.
End Wall.

End FoldStrip.

(** ** [App]: the process-level state machine *)

Module App.

(** The component state of [App] together with the pending timers of
    [setTimeout(..., 800)]. *)
Record t : Type := mk {
  appState : AppState;
  capturedImage : option string;
  timers : nat
}.

(** [useState(AppState.IDLE)], [useState(null)]. *)
Definition init : t := mk IDLE None 0.

Inductive Event : Type :=
| Capture (imageData : string)  (* [onCapture] of [CameraInterface] *)
| Timeout                     (* a pending timer fires *)
| Reset.                      (* [onReset] of [Scene3D] *)

Definition handleCapture (imageData : string) (a : t) : t :=
  mk PROCESSING (Some imageData) (S (timers a)).

Definition onTimeout (a : t) : t :=
  mk INTERACTIVE (capturedImage a) (pred (timers a)).

Definition handleReset (a : t) : t :=
  mk IDLE None (timers a).

(** Which handler can run is decided by what [App] renders:
    [CameraInterface] only in [IDLE], [Scene3D] only in [INTERACTIVE]
    with an image; a timer fires only if one is pending. *)
Definition step (a : t) (e : Event) : option t :=
  match e with
  | Capture img =>
      if decide (appState a = IDLE) then Some (handleCapture img a) else None
  | Timeout =>
      if decide (timers a = 0%nat) then None else Some (onTimeout a)
  | Reset =>
      if decide (appState a = INTERACTIVE ∧ capturedImage a ≠ None)
      then Some (handleReset a) else None
  end.

(** The states visited by a run, oldest first, starting with the state
    the run starts in. *)
Fixpoint run (a : t) (es : list Event) : option (list AppState) :=
  match es with
  | [] => Some [appState a]
  | e :: es =>
      a' ← step a e;
      tr ← run a' es;
      Some (appState a :: tr)
  end.

End App.

(** ** [HandController.tsx]: the animation-frame loop around the derivation *)

Module PredictLoop.

(** What one invocation of [predictWebcam] (lines 57-113) does. *)
Inductive Outcome : Type :=
| Stopped                               (* line 58: [return]; nothing is rescheduled *)
| Skipped                               (* unchanged video time: no detection, rescheduled *)
| Updated (data : HandControlData.t R)  (* [onUpdate(data)], rescheduled *)
| Threw.                                (* [TypeError] in the derivation: not rescheduled *)

(** One invocation: [ready] is [handLandmarker && videoRef.current],
    [results] is what [detectForVideo] returns for the current video
    frame.  The result is the new [lastVideoTime] and the outcome. *)
Definition tick (ready : bool) (lastVideoTime currentTime : R)
    (results : list (list (Landmark.t R))) : R * Outcome :=
  if negb ready then (lastVideoTime, Stopped)
  else if Req_dec_T currentTime lastVideoTime then (lastVideoTime, Skipped)
  else
    match HandController.predictWebcam results with
    | Some data => (currentTime, Updated data)
    | None => (currentTime, Threw)
    end.

(** Whether [requestAnimationFrame(predictWebcam)] (line 112) is reached. *)
Definition rescheduled (o : Outcome) : bool :=
  match o with
  | Skipped | Updated _ => true
  | Stopped | Threw => false
  end.

End PredictLoop.

(** ** [Scene3D]: the hand loop and the render loop around the control cell *)

Module Scene.

Record t : Type := mk {
  lastVideoTime : R;              (* [let lastVideoTime = -1] *)
  looping : bool;                 (* an animation frame of [predictWebcam] is pending *)
  controlRef : FoldControlData.t;
  frame : FoldStrip.FrameState
}.

Inductive Event : Type :=
| HandTick (ready : bool) (currentTime : R) (results : list (list (Landmark.t R)))
| RenderFrame (pointer : FoldStrip.Pointer) (time : R).

Section Wall.
Variables (width height : R) (strips : nat) (noiseOffsets : list R).

(** The scene once the video has loaded its first frame. *)
Definition init : t :=
  mk (-1) true Scene3D.controlRef_init (FoldStrip.mounted width height strips).

Definition step (s : t) (e : Event) : t :=
  match e with
  | HandTick ready currentTime results =>
      if looping s then
        let '(last, o) := PredictLoop.tick ready (lastVideoTime s) currentTime results in
        let cell :=
          match o with
          | PredictLoop.Updated data => Scene3D.handleHandUpdate (controlRef s) data
          | _ => controlRef s
          end in
        mk last (PredictLoop.rescheduled o) cell (frame s)
      else s
  | RenderFrame pointer time =>
      mk (lastVideoTime s) (looping s) (controlRef s)
         (FoldStrip.useFrame width height strips noiseOffsets (controlRef s) pointer time (frame s))
  end.

Definition run (es : list Event) (s : t) : t := fold_left step es s.

(** The control cell, pointer and clock read by each render frame of a
    run, oldest first. *)
Fixpoint reads (es : list Event) (s : t) : list (FoldControlData.t * FoldStrip.Pointer * R) :=
  match es with
  | [] => []
  | e :: es =>
      match e with
      | RenderFrame pointer time => (controlRef s, pointer, time) :: reads es (step s e)
      | HandTick _ _ _ => reads es (step s e)
      end
  end.
End Wall.

End Scene.

(** ** [App]: final states and what is rendered *)

Module AppView.

(** The final component state of a run of events. *)
Fixpoint exec (a : App.t) (es : list App.Event) : option App.t :=
  match es with
  | [] => Some a
  | e :: es => a' ← App.step a e; exec a' es
  end.

(** The children of the root [div] (lines 288-310 of [App]). *)
Inductive View : Type :=
| CameraInterfaceView
| ProcessingView (background : option string)
| Scene3DView (imageSrc : string).

(** A string is truthy unless empty. *)
Definition truthy (s : option string) : option string :=
  match s with
  | Some EmptyString => None
  | other => other
  end.

Definition render (a : App.t) : list View :=
  (if decide (App.appState a = IDLE) then [CameraInterfaceView] else [])
  ++ (if decide (App.appState a = PROCESSING)
      then [ProcessingView (truthy (App.capturedImage a))] else [])
  ++ (if decide (App.appState a = INTERACTIVE)
      then match truthy (App.capturedImage a) with
           | Some img => [Scene3DView img]
           | None => []
           end
      else []).

(** The image of the last [Capture] of a run. *)
Fixpoint lastCapture (es : list App.Event) (acc : option string) : option string :=
  match es with
  | [] => acc
  | App.Capture img :: es => lastCapture es (Some img)
  | _ :: es => lastCapture es acc
  end.


Definition stateAfter (n : nat) : AppState :=
  match (n mod 3)%nat with
  | 0%nat => IDLE
  | 1%nat => PROCESSING
  | _ => INTERACTIVE
  end.

End AppView.

(** ** [src/services/geminiService.ts] *)

Module GeminiService.
Local Open Scope string_scope.

(** [strip p s]: [Some rest] when [s] is [p] followed by [rest]. *)
Fixpoint strip (p s : string) : option string :=
  match p, s with
  | EmptyString, _ => Some s
  | String a p', String b s' => if Ascii.eqb a b then strip p' s' else None
  | String _ _, EmptyString => None
  end.

(** [base64Image.replace(/^data:image\/(png|jpeg|jpg);base64,/, "")]. *)
Definition cleanBase64 (base64Image : string) : string :=
  match strip "data:image/png;base64," base64Image with
  | Some rest => rest
  | None =>
      match strip "data:image/jpeg;base64," base64Image with
      | Some rest => rest
      | None =>
          match strip "data:image/jpg;base64," base64Image with
          | Some rest => rest
          | None => base64Image
          end
      end
  end.

(** What [ai.models.generateContent] does: it rejects, or resolves with a
    response whose [text] may be undefined. *)
Inductive Response : Type :=
| Rejected
| Resolved (text : option string).

Section Service.
(** [String.prototype.trim] and the remote model, which receives the
    cleaned image data. *)
Variable trim : string -> string.
Variable generateContent : string -> Response.

(** [analyzeSelfieMood]; [apiKey] is [process.env.API_KEY]. *)
Definition analyzeSelfieMood (apiKey : option string) (base64Image : string) : string :=
  match apiKey with
  | None | Some EmptyString => "Unknown"
  | Some _ =>
      let data := cleanBase64 base64Image in
      match generateContent data with
      | Rejected => "Error"
      | Resolved None => "Neutral"
      | Resolved (Some text) =>
          match trim text with
          | EmptyString => "Neutral"
          | word => word
          end
      end
  end.
End Service.

End GeminiService.

(** * Vocabulary of the statements *)

Local Open Scope R_scope.

(** The noise table as the source builds it: [strips] values of
    [Math.random()], each in [[0,1)]. *)
Definition noise_table (strips : nat) (noiseOffsets : list R) : Prop :=
  length noiseOffsets = strips /\ Forall (fun v => 0 <= v < 1) noiseOffsets.

(** The sample emitted when the landmarker reports no hand. *)
Definition untracked : HandControlData.t R := HandControlData.mk 0 0 0 false.

(** All frames of a run read the same control cell [c]. *)
Definition constant_target (c : FoldControlData.t)
    (inputs : list (FoldControlData.t * FoldStrip.Pointer * R)) : Prop :=
  Forall (fun i => i.1.1 = c) inputs.

(** Every frame of a run reads a control cell whose compression is in
    [[0,1]]. *)
Definition compression_in_range (inputs : list (FoldControlData.t * FoldStrip.Pointer * R)) : Prop :=
  Forall (fun i => 0 <= FoldControlData.compression i.1.1 <= 1) inputs.

(** [clamp(v, 0, 1)] as line 91 writes it. *)
Definition clamp01 (v : R) : R := Rmax 0 (Rmin 1 v).

(** A hand held upright: wrist at [(0.5, 0.8)], knuckle at [(0.5, 0.6)],
    fingertip at [(0.5, 0.4)]. *)
Definition upright_hand : list (Landmark.t R) :=
  replicate 9 (Landmark.mk 0.5 0.8 0)
  ++ replicate 3 (Landmark.mk 0.5 0.6 0)
  ++ replicate 9 (Landmark.mk 0.5 0.4 0).

(** A binary64 landmark at [(x, y, 0)], the coordinates given as
    quotients of integers. *)
Definition landmark64 (xn xd yn yd : Z) : Landmark.t PrimFloat.float :=
  Landmark.mk (dec xn xd) (dec yn yd) (ofZ 0).

(** A detected hand whose 21 landmarks all project to the image point
    [(0.5, 0.5)]. *)
Definition collapsed_hand : list (Landmark.t PrimFloat.float) :=
  replicate 21 (landmark64 5 10 5 10).

(** A detected hand whose wrist and middle knuckle coincide at
    [(0.5, 0.5)] while the fingertip is at [(0.5, 0.25)]. *)
Definition foreshortened_hand : list (Landmark.t PrimFloat.float) :=
  replicate 12 (landmark64 5 10 5 10) ++ replicate 9 (landmark64 5 10 25 100).

(** The transitions the handlers of [App] can make. *)
Inductive next : AppState -> AppState -> Prop :=
| next_capture : next IDLE PROCESSING
| next_timeout : next PROCESSING INTERACTIVE
| next_reset : next INTERACTIVE IDLE.

(** What holds of the component state in each application state. *)
Definition app_inv (a : App.t) : Prop :=
  match App.appState a with
  | IDLE => App.timers a = 0%nat /\ App.capturedImage a = None
  | CAPTURING => False
  | PROCESSING => App.timers a = 1%nat /\ App.capturedImage a <> None
  | INTERACTIVE => App.timers a = 0%nat /\ App.capturedImage a <> None
  end.

(** Consecutive states of a trace are related by [next]. *)
Fixpoint chained (tr : list AppState) : Prop :=
  match tr with
  | a :: (b :: _) as rest => next a b /\ chained rest
  | _ => True
  end.

(** The two rows a frame writes: for each boundary [i = 0 .. strips] the
    top vertex, then for each boundary the bottom vertex. *)
Definition vertexRows (width height : R) (strips : nat) (noiseOffsets : list R)
    (ec time : R) : list FoldStrip.Vec3 :=
  let x i := nth i (FoldStrip.xPositions width strips noiseOffsets ec time) 0
             + FoldStrip.offsetX width strips noiseOffsets ec time in
  let z i := nth i (FoldStrip.zPositions width strips noiseOffsets ec time) 0 in
  ((fun i => (x i, height / 2, z i)) <$> seq 0 (S strips))
  ++ ((fun i => (x i, - height / 2, z i)) <$> seq 0 (S strips)).

(** A landmark in image-normalized coordinates. *)
Definition normalized (lm : Landmark.t R) : Prop :=
  0 <= Landmark.x lm <= 1 /\ 0 <= Landmark.y lm <= 1.

(** A detected hand whose wrist and middle knuckle do not coincide in the
    image, so that [extension / handSize] is a quotient of real numbers. *)
Definition sized (landmarks : list (Landmark.t R)) : Prop :=
  forall wrist knuckle,
    landmarks !! 0%nat = Some wrist -> landmarks !! 9%nat = Some knuckle ->
    HandController.handSize wrist knuckle <> 0.

(** A hand as the derivation expects it: normalized and [sized]. *)
Definition proper_hand (landmarks : list (Landmark.t R)) : Prop :=
  Forall normalized landmarks /\ sized landmarks.

(** The documented ranges of the control cell and of the pointer. *)
Definition control_in_range (c : FoldControlData.t) : Prop :=
  0 <= FoldControlData.compression c <= 1
  /\ -1 <= FoldControlData.tiltX c <= 1
  /\ -1 <= FoldControlData.tiltY c <= 1.

Definition pointer_in_range (p : FoldStrip.Pointer) : Prop :=
  -1 <= FoldStrip.pointer_x p <= 1 /\ -1 <= FoldStrip.pointer_y p <= 1.

(** Every frame of a run reads a control cell and a pointer in range. *)
Definition inputs_in_range (inputs : list (FoldControlData.t * FoldStrip.Pointer * R)) : Prop :=
  Forall (fun i => control_in_range i.1.1 /\ pointer_in_range i.1.2) inputs.

(** A landmark moved by the similarity [p |-> k * p + (dx, dy)] of the
    image plane. *)
Definition similar (k dx dy : R) (lm : Landmark.t R) : Landmark.t R :=
  Landmark.mk (k * Landmark.x lm + dx) (k * Landmark.y lm + dy) (Landmark.z lm).

(** An event of the scene whose data respect the interfaces: proper
    hands, pointer in [[-1,1]²]. *)
Definition event_in_range (e : Scene.Event) : Prop :=
  match e with
  | Scene.HandTick _ _ results => Forall proper_hand results
  | Scene.RenderFrame pointer _ => pointer_in_range pointer
  end.

(** Where the mesh rotation settles for a control cell [c] and a pointer
    [p] held still: half the combined tilt of lines 119 and 122. *)
Definition restRotationX (c : FoldControlData.t) (p : FoldStrip.Pointer) : R :=
  (FoldControlData.tiltY c + FoldStrip.pointer_y p * 0.3) * 0.5.

Definition restRotationY (c : FoldControlData.t) (p : FoldStrip.Pointer) : R :=
  (FoldControlData.tiltX c + FoldStrip.pointer_x p * 0.2) * 0.5.

(** All frames of a run read the same control cell and the same pointer. *)
Definition held_still (c : FoldControlData.t) (p : FoldStrip.Pointer)
    (inputs : list (FoldControlData.t * FoldStrip.Pointer * R)) : Prop :=
  Forall (fun i => i.1 = (c, p)) inputs.

(** A capture hands over a non-empty data URL. *)
Definition capture_nonempty (e : App.Event) : Prop :=
  match e with
  | App.Capture EmptyString => False
  | _ => True
  end.

(** * Properties *)

(** ** Numeric facts shared by the proofs *)

Lemma lerp_error (x y t : R) : MathUtils.lerp x y t - y = (1 - t) * (x - y).
Proof. unfold MathUtils.lerp. ring. Qed.

Lemma lerp_between (x y t : R) :
  0 <= t <= 1 -> 0 <= x <= 1 -> 0 <= y <= 1 -> 0 <= MathUtils.lerp x y t <= 1.
Proof. unfold MathUtils.lerp. intros Ht Hx Hy. split; nra. Qed.

Lemma Rabs_le_between (a b : R) : Rabs a <= b -> - b <= a <= b.
Proof.
  intros Hab. pose proof (Rle_abs a). pose proof (Rle_abs (- a)) as Hn.
  rewrite Rabs_Ropp in Hn. lra.
Qed.

Lemma PI_over_205_lt_half_PI : PI / 2.05 < PI / 2.
Proof. pose proof PI_RGT_0. lra. Qed.

Lemma PI_over_205_gt_1 : 1 < PI / 2.05.
Proof. pose proof PI_4 as H4. pose proof PI2_3_2 as H32. unfold PI2 in H32. lra. Qed.

(** ** The polyline walk of [FoldStrip] *)

Section WalkFacts.
Variables (width height : R) (strips : nat) (noiseOffsets : list R).
Variables (ec time : R).

Abbreviation xAt := (FoldStrip.xAt width strips noiseOffsets ec time).
Abbreviation zAt := (FoldStrip.zAt width strips noiseOffsets ec time).
Abbreviation walkStep := (FoldStrip.walkStep width strips noiseOffsets ec time).

Lemma map_seq_snoc (f : nat -> R) (n : nat) :
  map f (seq 0 (S n)) = map f (seq 0 n) ++ [f n].
Proof. now rewrite seq_S, map_app. Qed.

Lemma last_map_seq (f : nat -> R) (n : nat) :
  List.last (map f (seq 0 (S n))) 0 = f n.
Proof. rewrite map_seq_snoc. apply last_last. Qed.

Lemma walk_prefix (n : nat) :
  fold_left walkStep (seq 0 n) (0, [0], [0])
  = (xAt n, map xAt (seq 0 (S n)), map zAt (seq 0 (S n))).
Proof.
  induction n as [|n IH]; [reflexivity|].
  rewrite seq_S, fold_left_app, IH. cbn [fold_left Nat.add].
  unfold FoldStrip.walkStep.
  rewrite last_map_seq, (map_seq_snoc xAt (S n)), (map_seq_snoc zAt (S n)).
  reflexivity.
Qed.

Lemma xPositions_eq :
  FoldStrip.xPositions width strips noiseOffsets ec time = map xAt (seq 0 (S strips)).
Proof. unfold FoldStrip.xPositions, FoldStrip.walk. now rewrite walk_prefix. Qed.

Lemma zPositions_eq :
  FoldStrip.zPositions width strips noiseOffsets ec time = map zAt (seq 0 (S strips)).
Proof. unfold FoldStrip.zPositions, FoldStrip.walk. now rewrite walk_prefix. Qed.

Lemma nth_map_seq (f : nat -> R) (n i : nat) :
  (i < n)%nat -> nth i (map f (seq 0 n)) 0 = f i.
Proof.
  intros Hi. rewrite (nth_indep _ 0 (f 0%nat)) by now rewrite length_map, length_seq.
  rewrite (map_nth f (seq 0 n) 0%nat i), seq_nth by assumption. reflexivity.
Qed.

Lemma xPositions_nth (i : nat) :
  (i <= strips)%nat ->
  nth i (FoldStrip.xPositions width strips noiseOffsets ec time) 0 = xAt i.
Proof. intros Hi. rewrite xPositions_eq. apply nth_map_seq. lia. Qed.

Lemma zPositions_nth (i : nat) :
  (i <= strips)%nat ->
  nth i (FoldStrip.zPositions width strips noiseOffsets ec time) 0 = zAt i.
Proof. intros Hi. rewrite zPositions_eq. apply nth_map_seq. lia. Qed.

Lemma xPositions_length :
  length (FoldStrip.xPositions width strips noiseOffsets ec time) = S strips.
Proof. now rewrite xPositions_eq, length_map, length_seq. Qed.

Lemma totalCurrentWidth_eq :
  FoldStrip.totalCurrentWidth width strips noiseOffsets ec time = xAt strips.
Proof.
  unfold FoldStrip.totalCurrentWidth. rewrite xPositions_eq. apply last_map_seq.
Qed.
End WalkFacts.

(** ** The fold angle *)

Lemma noise_range (strips : nat) (noiseOffsets : list R) (i : nat) :
  noise_table strips noiseOffsets -> (i < strips)%nat ->
  0 <= FoldStrip.noise noiseOffsets i < 1.
Proof.
  intros [Hlen Hall] Hi. unfold FoldStrip.noise.
  apply (proj1 (Forall_nth _ 0 noiseOffsets) Hall). lia.
Qed.

Lemma wave_range (time : R) (i : nat) : -0.15 <= FoldStrip.wave time i <= 0.15.
Proof.
  unfold FoldStrip.wave.
  pose proof (SIN_bound (time * 1.5 + INR i * 0.3)). lra.
Qed.

Lemma dir_cases (i : nat) : FoldStrip.dir i = 1 \/ FoldStrip.dir i = -1.
Proof. unfold FoldStrip.dir. destruct (Nat.even i); auto. Qed.

(** The clamped magnitude before the direction is applied. *)
Lemma clamp_range (noiseOffsets : list R) (ec time : R) (i : nat) :
  0 <= ec <= 1 -> 0 <= FoldStrip.noise noiseOffsets i < 1 ->
  -0.015 <= Rmin (PI / 2.05)
              (FoldStrip.baseAngle ec time i + FoldStrip.noise noiseOffsets i * 0.1 * ec)
         <= PI / 2.05.
Proof.
  intros Hec Hn. split; [|apply Rmin_l].
  apply Rmin_glb.
  - pose proof PI_over_205_gt_1. lra.
  - unfold FoldStrip.baseAngle. pose proof (wave_range time i). nra.
Qed.

Lemma angle_abs_le (noiseOffsets : list R) (ec time : R) (i : nat) :
  0 <= ec <= 1 -> 0 <= FoldStrip.noise noiseOffsets i < 1 ->
  Rabs (FoldStrip.angle noiseOffsets ec time i) <= PI / 2.05.
Proof.
  intros Hec Hn. pose proof (clamp_range noiseOffsets ec time i Hec Hn) as Hc.
  pose proof PI_over_205_gt_1 as Hpi.
  unfold FoldStrip.angle. apply Rabs_le.
  destruct (dir_cases i) as [-> | ->]; lra.
Qed.

(** C2. For every strip [i] of a wall with a noise table in [[0,1)], any
    effective compression in [[0,1]] and any elapsed time, the fold angle
    computed at line 90 satisfies [|angle_i| <= PI / 2.05]. *)
Theorem fold_angle_guard (strips : nat) (noiseOffsets : list R)
    (ec time : R) (i : nat) :
  noise_table strips noiseOffsets ->
  0 <= ec <= 1 ->
  (i < strips)%nat ->
  Rabs (FoldStrip.angle noiseOffsets ec time i) <= PI / 2.05.
Proof.
  intros Hnoise Hec Hi. apply angle_abs_le; [assumption|].
  eapply noise_range; eassumption.
Qed.

Lemma fold_angle_guard_witness :
  Rabs (FoldStrip.angle [0.5; 0.25] 1 0 1) <= PI / 2.05.
Proof.
  apply (fold_angle_guard 2 [0.5; 0.25] 1 0 1).
  - split; [reflexivity|]. repeat constructor; lra.
  - lra.
  - lia.
Defined.

(** ** Control fusion: smoothing and the maximum-precedence rule *)

Lemma predictWebcam_no_hand :
  HandController.predictWebcam (num := R) [] = Some untracked.
Proof. reflexivity. Qed.

Lemma handleHandUpdate_untracked (controlRef : FoldControlData.t) :
  Scene3D.handleHandUpdate controlRef untracked = FoldControlData.mk 0 0 0.
Proof. reflexivity. Qed.

Section FrameFacts.
Variables (width height : R) (strips : nat) (noiseOffsets : list R).

Abbreviation useFrame := (FoldStrip.useFrame width height strips noiseOffsets).
Abbreviation frames := (FoldStrip.frames width height strips noiseOffsets).

Lemma useFrame_currentStats c p t s :
  FoldStrip.currentStats (useFrame c p t s) = FoldStrip.smooth (FoldStrip.currentStats s) c.
Proof. reflexivity. Qed.

Lemma frames_snoc inputs c p t s :
  frames (inputs ++ [(c, p, t)]) s = useFrame c p t (frames inputs s).
Proof. unfold FoldStrip.frames. now rewrite fold_left_app. Qed.

(** Under a constant target the three smoothed components approach it
    geometrically: compression by 0.9, both tilts by 0.95 per frame. *)
Lemma frames_error c inputs s :
  constant_target c inputs ->
  let s' := FoldStrip.currentStats (frames inputs s) in
  let s0 := FoldStrip.currentStats s in
  let n := length inputs in
  FoldControlData.compression s' - FoldControlData.compression c
    = 0.9 ^ n * (FoldControlData.compression s0 - FoldControlData.compression c)
  /\ FoldControlData.tiltX s' - FoldControlData.tiltX c
    = 0.95 ^ n * (FoldControlData.tiltX s0 - FoldControlData.tiltX c)
  /\ FoldControlData.tiltY s' - FoldControlData.tiltY c
    = 0.95 ^ n * (FoldControlData.tiltY s0 - FoldControlData.tiltY c).
Proof.
  induction inputs as [|[[c' p] t] inputs IH] using rev_ind; intros Hc; cbn zeta.
  - cbn. repeat split; ring.
  - apply Forall_app in Hc as [Hc Hlast].
    apply Forall_cons in Hlast as [Heq _]. cbn in Heq. subst c'.
    specialize (IH Hc). cbn zeta in IH. destruct IH as (IH1 & IH2 & IH3).
    rewrite frames_snoc, useFrame_currentStats, length_app.
    cbn [length]. rewrite Nat.add_1_r. cbn [pow].
    unfold FoldStrip.smooth. cbn [FoldControlData.compression FoldControlData.tiltX FoldControlData.tiltY].
    rewrite !lerp_error. rewrite IH1, IH2, IH3. repeat split; lra.
Qed.

(** The smoothed compression never leaves [[0,1]] while the control
    cell holds a compression in [[0,1]]. *)
Lemma frames_compression_range inputs s :
  compression_in_range inputs ->
  0 <= FoldControlData.compression (FoldStrip.currentStats s) <= 1 ->
  0 <= FoldControlData.compression (FoldStrip.currentStats (frames inputs s)) <= 1.
Proof.
  induction inputs as [|[[c p] t] inputs IH] using rev_ind; intros Hin Hs; [assumption|].
  apply Forall_app in Hin as [Hin Hlast].
  apply Forall_cons in Hlast as [Hc _]. cbn in Hc.
  rewrite frames_snoc, useFrame_currentStats.
  apply lerp_between; [lra | auto | assumption].
Qed.

Lemma effectiveCompression_range stats pointer :
  0 <= FoldControlData.compression stats <= 1 ->
  -1 <= FoldStrip.pointer_x pointer <= 1 ->
  0 <= FoldStrip.effectiveCompression stats pointer <= 1.
Proof.
  intros Hs Hp. unfold FoldStrip.effectiveCompression, FoldStrip.mouseCompression.
  split.
  - eapply Rle_trans; [apply Hs | apply Rmax_l].
  - apply Rmax_lub; [lra | apply Rabs_le; lra].
Qed.
End FrameFacts.


Lemma pow_decay (q : R) (n : nat) : 0 < q < 1 -> 0 < q ^ n <= 1.
Proof.
  intros Hq. split; [apply pow_lt; lra|].
  rewrite <- (pow1 n). apply pow_incr. lra.
Qed.

Lemma Rabs_scale (q e : R) : 0 <= q -> Rabs (q * e) = q * Rabs e.
Proof. intros Hq. now rewrite Rabs_mult, (Rabs_pos_eq q). Qed.

(** C1. The frame folds the wall by
    [max(smoothed hand compression, |pointer.x|)]; raising either argument
    alone never lowers the result; and with the hand untracked and the
    pointer at [(1,0)] the result is 1 whatever hand state came before:
    for any smoothed compression in [[0,1]], in particular after any run
    of frames whose hand samples had a compression in [[0,1]]. *)
Theorem max_precedence :
  (forall width height strips noiseOffsets c p t s,
     FoldStrip.position (FoldStrip.useFrame width height strips noiseOffsets c p t s)
     = FoldStrip.writeVertices width height strips noiseOffsets
         (Rmax (MathUtils.lerp (FoldControlData.compression (FoldStrip.currentStats s))
                               (FoldControlData.compression c) 0.1)
               (Rabs (FoldStrip.pointer_x p)))
         t (FoldStrip.position s))
  /\ (forall stats stats' p,
        FoldControlData.compression stats <= FoldControlData.compression stats' ->
        FoldStrip.effectiveCompression stats p <= FoldStrip.effectiveCompression stats' p)
  /\ (forall stats p p',
        FoldStrip.mouseCompression p <= FoldStrip.mouseCompression p' ->
        FoldStrip.effectiveCompression stats p <= FoldStrip.effectiveCompression stats p')
  /\ (forall prev controlRef,
        0 <= FoldControlData.compression prev <= 1 ->
        FoldStrip.effectiveCompression
          (FoldStrip.smooth prev (Scene3D.handleHandUpdate controlRef untracked))
          (FoldStrip.mkPointer 1 0) = 1)
  /\ (forall width height strips noiseOffsets inputs controlRef,
        compression_in_range inputs ->
        FoldStrip.effectiveCompression
          (FoldStrip.smooth
             (FoldStrip.currentStats
                (FoldStrip.frames width height strips noiseOffsets inputs
                   (FoldStrip.mounted width height strips)))
             (Scene3D.handleHandUpdate controlRef untracked))
          (FoldStrip.mkPointer 1 0) = 1).
Proof.
  assert (Hone : forall prev controlRef,
             0 <= FoldControlData.compression prev <= 1 ->
             FoldStrip.effectiveCompression
               (FoldStrip.smooth prev (Scene3D.handleHandUpdate controlRef untracked))
               (FoldStrip.mkPointer 1 0) = 1).
  { intros prev controlRef Hprev.
    unfold FoldStrip.effectiveCompression, FoldStrip.mouseCompression.
    cbn. unfold MathUtils.lerp. rewrite Rabs_R1. apply Rmax_right. lra. }
  repeat split.
  - intros. apply Rle_max_compat_r. assumption.
  - intros. apply Rle_max_compat_l. assumption.
  - exact Hone.
  - intros width height strips noiseOffsets inputs controlRef Hin. apply Hone.
    apply frames_compression_range; [assumption|]. cbn. lra.
Qed.

Lemma max_precedence_witness :
  FoldStrip.effectiveCompression
    (FoldStrip.smooth (FoldControlData.mk 0.7 0.2 0.1)
       (Scene3D.handleHandUpdate (FoldControlData.mk 0.7 0.2 0.1) untracked))
    (FoldStrip.mkPointer 1 0) = 1.
Proof.
  apply (proj1 (proj2 (proj2 (proj2 max_precedence)))). cbn. lra.
Defined.

(** How close "about 60" is: after exactly 60 frames towards the target
    1 from the mounted state 0 the smoothed compression is still a little
    further than [1e-3] from the target ([0.9 ^ 60] is about [1.8e-3]);
    the 66 frames of [smoothing_convergence] cover every unit step. *)
Lemma smoothing_not_within_60 :
  let target := FoldControlData.mk 1 0 0 in
  let s := FoldStrip.frames 16 10 32 (replicate 32 0)
             (replicate 60 (target, FoldStrip.mkPointer 0 0, 0))
             (FoldStrip.mounted 16 10 32) in
  ~ Rabs (FoldControlData.compression (FoldStrip.currentStats s) - 1) <= 0.001.
Proof.
  intros target s.
  destruct (frames_error 16 10 32 (replicate 32 0) target
              (replicate 60 (target, FoldStrip.mkPointer 0 0, 0))
              (FoldStrip.mounted 16 10 32)) as (He & _).
  { now apply Forall_replicate. }
  subst s. cbn zeta in He. rewrite length_replicate in He. cbn [FoldControlData.compression target] in He.
  rewrite He. cbn [FoldStrip.mounted FoldStrip.currentStats FoldControlData.compression].
  replace (0.9 ^ 60 * (0 - 1)) with (- (0.9 ^ 60)) by ring.
  rewrite Rabs_Ropp, Rabs_pos_eq by (apply pow_le; lra).
  cbn [pow]. lra.
Qed.




(** C6. With no hand in the frame the derivation emits exactly
    [{compression: 0, x: 0, y: 0, isTracking: false}] and the control cell
    is reset to zero at once; the smoothed state then follows at the lerp
    rates: after [n] frames the compression is [0.9 ^ n] and each tilt
    [0.95 ^ n] times its stale value, so a non-zero stale compression is
    non-zero after every frame, strictly smaller in magnitude after each,
    and eventually below any positive bound. *)
Theorem no_hand_decay (width height : R) (strips : nat) (noiseOffsets : list R)
    (controlRef : FoldControlData.t)
    (inputs : list (FoldControlData.t * FoldStrip.Pointer * R))
    (s : FoldStrip.FrameState) :
  let zero := Scene3D.handleHandUpdate controlRef untracked in
  constant_target zero inputs ->
  let s0 := FoldStrip.currentStats s in
  let sn := FoldStrip.currentStats (FoldStrip.frames width height strips noiseOffsets inputs s) in
  let n := length inputs in
  HandController.predictWebcam (num := R) [] = Some (HandControlData.mk 0 0 0 false)
  /\ zero = FoldControlData.mk 0 0 0
  /\ FoldControlData.compression sn = 0.9 ^ n * FoldControlData.compression s0
  /\ FoldControlData.tiltX sn = 0.95 ^ n * FoldControlData.tiltX s0
  /\ FoldControlData.tiltY sn = 0.95 ^ n * FoldControlData.tiltY s0
  /\ (FoldControlData.compression s0 <> 0 ->
        FoldControlData.compression sn <> 0
        /\ Rabs (FoldControlData.compression (FoldStrip.smooth sn zero))
           < Rabs (FoldControlData.compression sn))
  /\ (forall eps, 0 < eps -> exists N, forall inputs',
        constant_target zero inputs' -> (N <= length inputs')%nat ->
        Rabs (FoldControlData.compression
                (FoldStrip.currentStats
                   (FoldStrip.frames width height strips noiseOffsets inputs' s))) < eps).
Proof.
  intros zero Hc s0 sn n.
  assert (Hform : forall ins, constant_target zero ins ->
            FoldControlData.compression
              (FoldStrip.currentStats (FoldStrip.frames width height strips noiseOffsets ins s))
            = 0.9 ^ length ins * FoldControlData.compression s0).
  { intros ins Hins.
    destruct (frames_error width height strips noiseOffsets zero ins s Hins) as (He & _).
    cbn in He. fold s0 in He. lra. }
  destruct (frames_error width height strips noiseOffsets zero inputs s Hc) as (_ & HeX & HeY).
  cbn in HeX, HeY. fold sn s0 n in HeX, HeY.
  pose proof (Hform inputs Hc) as He. fold sn n in He.
  pose proof (pow_decay 0.9 n) as Hp.
  repeat split; try reflexivity; try lra.
  - rewrite He. nra.
  - cbn. unfold MathUtils.lerp.
    replace ((1 - 0.1) * FoldControlData.compression sn + 0.1 * 0)
      with (0.9 * FoldControlData.compression sn) by lra.
    rewrite Rabs_scale by lra.
    assert (0 < Rabs (FoldControlData.compression sn)).
    { apply Rabs_pos_lt. rewrite He. nra. }
    lra.
  - intros eps Heps.
    destruct (Req_dec (FoldControlData.compression s0) 0) as [Hz | Hnz].
    + exists 0%nat. intros ins Hins _. rewrite (Hform ins Hins), Hz, Rmult_0_r, Rabs_R0.
      assumption.
    + assert (Habs : 0 < Rabs (FoldControlData.compression s0)) by now apply Rabs_pos_lt.
      destruct (pow_lt_1_zero 0.9) with (y := eps / Rabs (FoldControlData.compression s0))
        as [N HN].
      { rewrite Rabs_pos_eq; lra. }
      { now apply Rdiv_lt_0_compat. }
      exists N. intros ins Hins Hlen. rewrite (Hform ins Hins), Rabs_mult.
      specialize (HN (length ins) Hlen).
      apply (Rmult_lt_compat_r _ _ _ Habs) in HN.
      unfold Rdiv in HN. rewrite Rmult_assoc, Rinv_l, Rmult_1_r in HN by lra.
      exact HN.
Qed.

Lemma no_hand_decay_witness :
  let stale := FoldStrip.mkFrameState (FoldControlData.mk 0.8 0.5 (-0.5))
                 (FoldStrip.PlaneGeometry 16 10 4) 0 0 in
  let zero := FoldControlData.mk 0 0 0 in
  let inputs := replicate 3 (zero, FoldStrip.mkPointer 0 0, 0) in
  FoldControlData.compression
    (FoldStrip.currentStats (FoldStrip.frames 16 10 4 (replicate 4 0) inputs stale))
  = 0.9 ^ 3 * 0.8.
Proof.
  intros stale zero inputs.
  pose proof (no_hand_decay 16 10 4 (replicate 4 0) zero inputs stale) as H.
  cbn zeta in H. destruct H as (_ & _ & H & _).
  - now apply Forall_replicate.
  - exact H.
Defined.

(** ** The hand-pose derivation *)

Lemma compressionOfRatio_R (ratio : R) :
  HandController.compressionOfRatio ratio = 1 - clamp01 ((ratio - 0.9) / 0.8).
Proof.
  unfold HandController.compressionOfRatio, clamp01, dec. cbn.
  replace (9 / 10) with 0.9 by lra. replace (8 / 10) with 0.8 by lra. reflexivity.
Qed.

Lemma clamp01_high (v : R) : 1 <= v -> clamp01 v = 1.
Proof.
  intros Hv. unfold clamp01. rewrite Rmin_left by assumption. apply Rmax_right. lra.
Qed.

Lemma clamp01_low (v : R) : v <= 0 -> clamp01 v = 0.
Proof.
  intros Hv. unfold clamp01. rewrite Rmin_right by lra. apply Rmax_left. assumption.
Qed.

Lemma clamp01_range (v : R) : 0 <= clamp01 v <= 1.
Proof.
  unfold clamp01. split; [apply Rmax_l|].
  apply Rmax_lub; [lra | apply Rmin_l].
Qed.

Lemma upright_handSize :
  HandController.handSize (Landmark.mk 0.5 0.8 0) (Landmark.mk 0.5 0.6 0) <> 0.
Proof.
  unfold HandController.handSize, Math_pow2. cbn.
  apply Rgt_not_eq, sqrt_lt_R0. lra.
Qed.

Lemma upright_hand_proper : proper_hand upright_hand.
Proof.
  split.
  - unfold upright_hand. repeat apply Forall_app_2; apply Forall_replicate;
      unfold normalized; cbn; lra.
  - intros wrist knuckle Hw Hk. cbn in Hw, Hk.
    injection Hw as <-. injection Hk as <-. apply upright_handSize.
Qed.

(** C7. For a detected hand with wrist, middle fingertip and middle
    knuckle at indices 0, 12 and 9 and [handSize <> 0], the emitted sample
    has [compression = 1 - clamp((ratio - 0.9) / 0.8, 0, 1)] with
    [ratio = extension / handSize], which is 0 for [ratio >= 1.7] and 1
    for [ratio <= 0.9], and the position
    [x = (1 - knuckle.x) * 2 - 1], [y = -(knuckle.y * 2 - 1)]. *)
Theorem hand_pose_derivation (landmarks : list (Landmark.t R))
    (others : list (list (Landmark.t R))) (wrist tip knuckle : Landmark.t R) :
  landmarks !! 0%nat = Some wrist ->
  landmarks !! 12%nat = Some tip ->
  landmarks !! 9%nat = Some knuckle ->
  HandController.handSize wrist knuckle <> 0 ->
  let ratio := HandController.extension wrist tip / HandController.handSize wrist knuckle in
  exists data,
    HandController.predictWebcam (landmarks :: others) = Some data
    /\ HandControlData.isTracking data = true
    /\ HandControlData.compression data = 1 - clamp01 ((ratio - 0.9) / 0.8)
    /\ (1.7 <= ratio -> HandControlData.compression data = 0)
    /\ (ratio <= 0.9 -> HandControlData.compression data = 1)
    /\ 0 <= HandControlData.compression data <= 1
    /\ HandControlData.x data = (1 - Landmark.x knuckle) * 2 - 1
    /\ HandControlData.y data = - (Landmark.y knuckle * 2 - 1).
Proof.
  intros Hw Ht Hk Hsize ratio.
  unfold HandController.predictWebcam. rewrite Hw, Ht, Hk. cbn [mbind option_bind].
  eexists. split; [reflexivity|].
  cbn [HandControlData.isTracking HandControlData.compression
       HandControlData.x HandControlData.y].
  change (ndiv (HandController.extension wrist tip) (HandController.handSize wrist knuckle))
    with ratio.
  rewrite compressionOfRatio_R.
  pose proof (clamp01_range ((ratio - 0.9) / 0.8)) as Hr.
  repeat split; try reflexivity; try lra.
  - intros Hopen. rewrite clamp01_high; lra.
  - intros Hfist. rewrite clamp01_low; lra.
Qed.

Lemma hand_pose_derivation_witness :
  exists data,
    HandController.predictWebcam [upright_hand] = Some data
    /\ HandControlData.isTracking data = true
    /\ HandControlData.x data = (1 - 0.5) * 2 - 1
    /\ HandControlData.y data = - (0.6 * 2 - 1).
Proof.
  destruct (hand_pose_derivation upright_hand []
              (Landmark.mk 0.5 0.8 0) (Landmark.mk 0.5 0.4 0) (Landmark.mk 0.5 0.6 0))
    as (data & Hd & Htrack & _ & _ & _ & _ & Hx & Hy);
    try reflexivity; try apply upright_handSize.
  exists data. auto.
Defined.

(** ** The derivation on binary64 *)

(** C5. The derivation has no guard on [handSize]: for a detected hand
    with [handSize = 0] the sample still has [isTracking = true]; when the
    fingertip coincides too, [ratio = 0 / 0] and the emitted compression
    is NaN; when it does not, [ratio] is infinite. *)
Theorem degenerate_hand_not_guarded :
  (exists data,
     HandController.predictWebcam [collapsed_hand] = Some data
     /\ HandController.handSize (landmark64 5 10 5 10) (landmark64 5 10 5 10) = PrimFloat.zero
     /\ HandControlData.isTracking data = true
     /\ PrimFloat.is_nan (HandControlData.compression data) = true
     /\ F64.is_finite (HandControlData.compression data) = false)
  /\ (exists data,
        HandController.predictWebcam [foreshortened_hand] = Some data
        /\ HandController.handSize (landmark64 5 10 5 10) (landmark64 5 10 5 10) = PrimFloat.zero
        /\ HandControlData.isTracking data = true
        /\ ndiv (HandController.extension (landmark64 5 10 5 10) (landmark64 5 10 25 100))
                (HandController.handSize (landmark64 5 10 5 10) (landmark64 5 10 5 10))
           = PrimFloat.infinity).
Proof.
  split; eexists; (split; [vm_compute; reflexivity|]); vm_compute; repeat split.
Qed.

(** On binary64 the bound [ratio >= 1.7] of the real-number reading is
    met up to rounding: at the double nearest to 1.7 the subtraction and
    division leave [2^-53]; from 1.75 on, and up to 0.9, the results are
    exact. *)
Example compressionOfRatio_binary64 :
  HandController.compressionOfRatio (dec 17 10 : PrimFloat.float)
    = ndiv (ofZ 1) (ofZ (2 ^ 53))
  /\ HandController.compressionOfRatio (dec 175 100 : PrimFloat.float) = PrimFloat.zero
  /\ HandController.compressionOfRatio (dec 9 10 : PrimFloat.float) = PrimFloat.one.
Proof. vm_compute. repeat split. Qed.

(** ** The vertex buffer written by a frame *)

Lemma PlaneGeometry_length (width height : R) (widthSegments : nat) :
  length (FoldStrip.PlaneGeometry width height widthSegments)
  = (2 * (widthSegments + 1))%nat.
Proof.
  unfold FoldStrip.PlaneGeometry. rewrite length_app, !length_map, !length_seq. lia.
Qed.

Section BufferFacts.
Variables (width height : R) (strips : nat) (noiseOffsets : list R).
Variables (ec time : R).

Abbreviation writeStep := (FoldStrip.writeStep width height strips noiseOffsets ec time).
Abbreviation xs := (FoldStrip.xPositions width strips noiseOffsets ec time).
Abbreviation zs := (FoldStrip.zPositions width strips noiseOffsets ec time).
Abbreviation shift := (FoldStrip.offsetX width strips noiseOffsets ec time).

Lemma writeStep_length (attr : list FoldStrip.Vec3) (i : nat) :
  length (writeStep attr i) = length attr.
Proof. unfold FoldStrip.writeStep, FoldStrip.setXYZ. now rewrite !length_insert. Qed.

Lemma writeVertices_length (attr : list FoldStrip.Vec3) :
  length (FoldStrip.writeVertices width height strips noiseOffsets ec time attr)
  = length attr.
Proof.
  unfold FoldStrip.writeVertices. generalize (seq 0 (S strips)) as idx.
  intros idx. revert attr.
  induction idx as [|i idx IH]; intros attr; [reflexivity|].
  cbn [fold_left]. now rewrite IH, writeStep_length.
Qed.

(** After the first [n] iterations of the second loop the boundaries
    [0 .. n-1] hold their top and bottom vertices. *)
Lemma writeVertices_prefix (n : nat) (attr : list FoldStrip.Vec3) :
  length attr = (2 * (strips + 1))%nat ->
  (n <= S strips)%nat ->
  forall i, (i < n)%nat ->
    fold_left writeStep (seq 0 n) attr !! i
    = Some (nth i xs 0 + shift, height / 2, nth i zs 0)
    /\ fold_left writeStep (seq 0 n) attr !! (i + strips + 1)%nat
       = Some (nth i xs 0 + shift, - height / 2, nth i zs 0).
Proof.
  intros Hlen. induction n as [|n IH]; intros Hn i Hi; [lia|].
  rewrite seq_S, fold_left_app. cbn [fold_left Nat.add].
  assert (Hl : length (fold_left writeStep (seq 0 n) attr) = (2 * (strips + 1))%nat).
  { rewrite <- Hlen. clear. revert attr. induction (seq 0 n) as [|k ks IHk]; intros attr.
    - reflexivity.
    - cbn [fold_left]. now rewrite IHk, writeStep_length. }
  specialize (IH ltac:(lia)).
  set (out := fold_left writeStep (seq 0 n) attr) in *.
  unfold FoldStrip.writeStep, FoldStrip.setXYZ, FoldStrip.Vec3 in *.
  destruct (decide (i = n)) as [-> | Hne].
  - split.
    + rewrite list_lookup_insert_ne by lia. apply list_lookup_insert_eq. lia.
    + apply list_lookup_insert_eq. rewrite length_insert. lia.
  - destruct (IH i ltac:(lia)) as [Htop Hbot].
    split; rewrite !list_lookup_insert_ne by lia; assumption.
Qed.

Lemma writeVertices_lookup (attr : list FoldStrip.Vec3) (i : nat) :
  length attr = (2 * (strips + 1))%nat ->
  (i <= strips)%nat ->
  FoldStrip.writeVertices width height strips noiseOffsets ec time attr !! i
  = Some (nth i xs 0 + shift, height / 2, nth i zs 0)
  /\ FoldStrip.writeVertices width height strips noiseOffsets ec time attr
       !! (i + strips + 1)%nat
     = Some (nth i xs 0 + shift, - height / 2, nth i zs 0).
Proof.
  intros Hlen Hi. apply writeVertices_prefix; [assumption | lia | lia].
Qed.
End BufferFacts.

Lemma frames_position_length (width height : R) (strips : nat)
    (noiseOffsets : list R) inputs :
  length (FoldStrip.position
            (FoldStrip.frames width height strips noiseOffsets inputs
               (FoldStrip.mounted width height strips)))
  = (2 * (strips + 1))%nat.
Proof.
  induction inputs as [|[[c p] t] inputs IH] using rev_ind.
  - apply PlaneGeometry_length.
  - rewrite frames_snoc. cbn [FoldStrip.useFrame FoldStrip.position].
    now rewrite writeVertices_length.
Qed.

(** C8. For a wall of [strips >= 1] strips, every frame of a run that
    starts from the mounted plane geometry leaves a buffer of exactly
    [2 * (strips + 1)] vertices in which, for each boundary
    [i = 0 .. strips], index [i] holds the top vertex
    [(x_i, height / 2, z_i)] and index [i + strips + 1] the bottom vertex
    [(x_i, - height / 2, z_i)] with the same [x_i] and [z_i]. *)
Theorem vertex_layout (width height : R) (strips : nat) (noiseOffsets : list R)
    (inputs : list (FoldControlData.t * FoldStrip.Pointer * R))
    (controlRef : FoldControlData.t) (pointer : FoldStrip.Pointer) (time : R) :
  (1 <= strips)%nat ->
  let s := FoldStrip.frames width height strips noiseOffsets inputs
             (FoldStrip.mounted width height strips) in
  let s' := FoldStrip.useFrame width height strips noiseOffsets controlRef pointer time s in
  let ec := FoldStrip.effectiveCompression (FoldStrip.currentStats s') pointer in
  let x i := nth i (FoldStrip.xPositions width strips noiseOffsets ec time) 0
             + FoldStrip.offsetX width strips noiseOffsets ec time in
  let z i := nth i (FoldStrip.zPositions width strips noiseOffsets ec time) 0 in
  length (FoldStrip.position s') = (2 * (strips + 1))%nat
  /\ forall i, (i <= strips)%nat ->
       FoldStrip.position s' !! i = Some (x i, height / 2, z i)
       /\ FoldStrip.position s' !! (i + strips + 1)%nat = Some (x i, - (height / 2), z i).
Proof.
  intros Hstrips s s' ec x z.
  pose proof (frames_position_length width height strips noiseOffsets inputs) as Hlen.
  fold s in Hlen.
  split.
  - unfold s'. cbn [FoldStrip.useFrame FoldStrip.position].
    now rewrite writeVertices_length.
  - intros i Hi. unfold s', x, z, ec.
    cbn [FoldStrip.useFrame FoldStrip.position FoldStrip.currentStats].
    replace (- (height / 2)) with (- height / 2) by lra.
    now apply writeVertices_lookup.
Qed.

Lemma vertex_layout_witness :
  length (FoldStrip.position
            (FoldStrip.useFrame 16 10 4 (replicate 4 0)
               (FoldControlData.mk 0 0 0) (FoldStrip.mkPointer 0 0) 0
               (FoldStrip.mounted 16 10 4))) = 10%nat.
Proof.
  apply (vertex_layout 16 10 4 (replicate 4 0) [] (FoldControlData.mk 0 0 0)
           (FoldStrip.mkPointer 0 0) 0). lia.
Defined.

(** ** The polyline never doubles back *)

Lemma segWidth_pos (width : R) (strips : nat) :
  0 < width -> (1 <= strips)%nat -> 0 < FoldStrip.segWidth width strips.
Proof.
  intros Hw Hs. unfold FoldStrip.segWidth. apply Rdiv_lt_0_compat; [assumption|].
  apply lt_0_INR. lia.
Qed.

Lemma angle_lt_half_PI (noiseOffsets : list R) (ec time : R) (i : nat) :
  0 <= ec <= 1 -> 0 <= FoldStrip.noise noiseOffsets i < 1 ->
  Rabs (FoldStrip.angle noiseOffsets ec time i) < PI / 2.
Proof.
  intros Hec Hn. eapply Rle_lt_trans; [now apply angle_abs_le|].
  apply PI_over_205_lt_half_PI.
Qed.

Lemma cos_angle_pos (noiseOffsets : list R) (ec time : R) (i : nat) :
  0 <= ec <= 1 -> 0 <= FoldStrip.noise noiseOffsets i < 1 ->
  0 < cos (FoldStrip.angle noiseOffsets ec time i).
Proof.
  intros Hec Hn. pose proof (angle_lt_half_PI noiseOffsets ec time i Hec Hn) as Ha.
  apply Rabs_def2 in Ha as [Hup Hlow]. apply cos_gt_0; lra.
Qed.

(** C10. In every frame of a run whose hand samples have a compression in
    [[0,1]] and whose pointer stays in [[-1,1]²], for a wall of positive
    width with [strips >= 1] strips and a noise table in [[0,1)]: the
    effective compression is in [[0,1]], every fold angle is strictly
    inside [(-PI/2, PI/2)], every step [dx = segWidth * cos(angle_i)] is
    strictly positive, and the boundary positions, as accumulated and as
    written to the top row of the buffer, are strictly increasing. *)
Theorem boundaries_increase (width height : R) (strips : nat) (noiseOffsets : list R)
    (inputs : list (FoldControlData.t * FoldStrip.Pointer * R))
    (controlRef : FoldControlData.t) (pointer : FoldStrip.Pointer) (time : R) :
  0 < width ->
  (1 <= strips)%nat ->
  noise_table strips noiseOffsets ->
  compression_in_range inputs ->
  0 <= FoldControlData.compression controlRef <= 1 ->
  -1 <= FoldStrip.pointer_x pointer <= 1 ->
  -1 <= FoldStrip.pointer_y pointer <= 1 ->
  let s := FoldStrip.frames width height strips noiseOffsets inputs
             (FoldStrip.mounted width height strips) in
  let s' := FoldStrip.useFrame width height strips noiseOffsets controlRef pointer time s in
  let ec := FoldStrip.effectiveCompression (FoldStrip.currentStats s') pointer in
  let xs := FoldStrip.xPositions width strips noiseOffsets ec time in
  0 <= ec <= 1
  /\ forall i, (i < strips)%nat ->
       Rabs (FoldStrip.angle noiseOffsets ec time i) < PI / 2
       /\ 0 < FoldStrip.segWidth width strips * cos (FoldStrip.angle noiseOffsets ec time i)
       /\ nth i xs 0 < nth (S i) xs 0
       /\ exists v v',
            FoldStrip.position s' !! i = Some v
            /\ FoldStrip.position s' !! S i = Some v'
            /\ FoldStrip.vx v < FoldStrip.vx v'.
Proof.
  intros Hw Hs Hnoise Hin Hc Hpx Hpy s s' ec xs.
  assert (Hec : 0 <= ec <= 1).
  { unfold ec, s'. rewrite useFrame_currentStats.
    apply effectiveCompression_range; [|assumption].
    apply lerp_between; [lra | | assumption].
    apply frames_compression_range; [assumption|]. cbn. lra. }
  split; [assumption|].
  intros i Hi.
  pose proof (noise_range strips noiseOffsets i Hnoise Hi) as Hn.
  pose proof (cos_angle_pos noiseOffsets ec time i Hec Hn) as Hcos.
  pose proof (segWidth_pos width strips Hw Hs) as Hseg.
  assert (Hdx : 0 < FoldStrip.segWidth width strips * cos (FoldStrip.angle noiseOffsets ec time i))
    by now apply Rmult_lt_0_compat.
  assert (Hx : nth i xs 0 < nth (S i) xs 0).
  { unfold xs. rewrite !xPositions_nth by lia. cbn [FoldStrip.xAt]. lra. }
  repeat split; try assumption.
  - now apply angle_lt_half_PI.
  - pose proof (frames_position_length width height strips noiseOffsets inputs) as Hlen.
    fold s in Hlen.
    destruct (writeVertices_lookup width height strips noiseOffsets ec time
                (FoldStrip.position s) i Hlen ltac:(lia)) as [Hi0 _].
    destruct (writeVertices_lookup width height strips noiseOffsets ec time
                (FoldStrip.position s) (S i) Hlen ltac:(lia)) as [Hi1 _].
    eexists. eexists. split; [exact Hi0|]. split; [exact Hi1|].
    unfold FoldStrip.vx. cbn [fst]. fold xs. lra.
Qed.

Lemma boundaries_increase_witness :
  let s' := FoldStrip.useFrame 16 10 2 [0.5; 0.25] (FoldControlData.mk 1 0 0)
              (FoldStrip.mkPointer 0.5 0) 0 (FoldStrip.mounted 16 10 2) in
  let ec := FoldStrip.effectiveCompression (FoldStrip.currentStats s') (FoldStrip.mkPointer 0.5 0) in
  0 <= ec <= 1.
Proof.
  apply (boundaries_increase 16 10 2 [0.5; 0.25] [] (FoldControlData.mk 1 0 0)
           (FoldStrip.mkPointer 0.5 0) 0).
  - lra.
  - lia.
  - split; [reflexivity|]. repeat constructor; lra.
  - constructor.
  - cbn. lra.
  - cbn. lra.
  - cbn. lra.
Defined.

(** ** The wall at rest: zero effective compression *)

Lemma angle_at_rest (noiseOffsets : list R) (time : R) (i : nat) :
  FoldStrip.angle noiseOffsets 0 time i
  = FoldStrip.dir i * (0.015 * sin (time * 1.5 + INR i * 0.3)).
Proof.
  unfold FoldStrip.angle, FoldStrip.baseAngle, FoldStrip.wave.
  pose proof (SIN_bound (time * 1.5 + INR i * 0.3)) as Hs.
  pose proof PI_over_205_gt_1 as Hpi.
  rewrite Rmin_right by lra. f_equal. lra.
Qed.

Lemma angle_at_rest_small (noiseOffsets : list R) (time : R) (i : nat) :
  Rabs (FoldStrip.angle noiseOffsets 0 time i) <= 0.015.
Proof.
  rewrite angle_at_rest. pose proof (SIN_bound (time * 1.5 + INR i * 0.3)) as Hs.
  apply Rabs_le. destruct (dir_cases i) as [-> | ->]; lra.
Qed.

Lemma cos_lower (a : R) : -2 <= a <= 2 -> 1 - a * a / 2 <= cos a.
Proof.
  intros [Hlo Hhi]. destruct (pre_cos_bound a 0 Hlo Hhi) as [Hc _].
  unfold cos_approx, cos_term in Hc. cbn in Hc. lra.
Qed.

Lemma sin_abs_le (a : R) : - PI < a < PI -> Rabs (sin a) <= Rabs a.
Proof.
  intros Ha. destruct (Rtotal_order a 0) as [Hneg | [-> | Hpos]].
  - assert (H0 : 0 < - a) by lra.
    pose proof (sin_lt_x (- a) H0) as Hlt. pose proof (sin_gt_0 (- a) H0 ltac:(lra)) as Hgt.
    rewrite sin_neg in Hlt, Hgt.
    rewrite (Rabs_left a) by assumption. rewrite (Rabs_left (sin a)) by lra. lra.
  - rewrite sin_0. lra.
  - pose proof (sin_lt_x a Hpos). pose proof (sin_gt_0 a Hpos ltac:(lra)).
    rewrite !Rabs_pos_eq; lra.
Qed.

Section RestFacts.
Variables (width : R) (strips : nat) (noiseOffsets : list R) (time : R).
Hypothesis width_nonneg : 0 <= width.

Abbreviation seg := (FoldStrip.segWidth width strips).
Abbreviation xRest := (FoldStrip.xAt width strips noiseOffsets 0 time).
Abbreviation zRest := (FoldStrip.zAt width strips noiseOffsets 0 time).

Lemma segWidth_nonneg : 0 <= seg.
Proof.
  unfold FoldStrip.segWidth. destruct strips as [|n].
  - cbn [INR]. unfold Rdiv. rewrite Rinv_0. lra.
  - apply Rmult_le_pos; [assumption|].
    left. apply Rinv_0_lt_compat, lt_0_INR. lia.
Qed.

Lemma cos_at_rest (i : nat) :
  0.9998 <= cos (FoldStrip.angle noiseOffsets 0 time i) <= 1.
Proof.
  pose proof (angle_at_rest_small noiseOffsets time i) as Ha.
  apply Rabs_le_between in Ha.
  split; [|apply COS_bound].
  eapply Rle_trans; [|apply cos_lower; lra]. nra.
Qed.

Lemma sin_at_rest (i : nat) :
  Rabs (sin (FoldStrip.angle noiseOffsets 0 time i)) <= 0.015.
Proof.
  pose proof (angle_at_rest_small noiseOffsets time i) as Ha.
  eapply Rle_trans; [apply sin_abs_le | exact Ha].
  apply Rabs_le_between in Ha. pose proof PI_over_205_gt_1. lra.
Qed.

Lemma xRest_bounds (n : nat) :
  0.9998 * (seg * INR n) <= xRest n <= seg * INR n.
Proof.
  pose proof segWidth_nonneg as Hseg.
  induction n as [|n IH].
  - cbn. lra.
  - rewrite S_INR. cbn [FoldStrip.xAt]. pose proof (cos_at_rest n). nra.
Qed.

Lemma zRest_bounds (n : nat) : Rabs (zRest n) <= 0.015 * (seg * INR n).
Proof.
  pose proof segWidth_nonneg as Hseg.
  induction n as [|n IH].
  - cbn. rewrite Rabs_R0. lra.
  - rewrite S_INR. cbn [FoldStrip.zAt].
    pose proof (sin_at_rest n) as Hs. apply Rabs_le_between in Hs. apply Rabs_le_between in IH.
    apply Rabs_le. nra.
Qed.

Lemma segWidth_total : (1 <= strips)%nat -> seg * INR strips = width.
Proof.
  intros Hs. unfold FoldStrip.segWidth. field. apply not_0_INR. lia.
Qed.
End RestFacts.

Lemma sin_03_pos : 0 < sin 0.3.
Proof. apply sin_gt_0; [lra|]. pose proof PI2_3_2. lra. Qed.

Lemma angle_rest_scenario_0 (noiseOffsets : list R) :
  FoldStrip.angle noiseOffsets 0 0 0 = 0.
Proof.
  rewrite angle_at_rest. cbn [INR].
  replace (0 * 1.5 + 0 * 0.3) with 0 by lra. rewrite sin_0. lra.
Qed.

Lemma angle_rest_scenario_1 (noiseOffsets : list R) :
  FoldStrip.angle noiseOffsets 0 0 1 = - (0.015 * sin 0.3).
Proof.
  rewrite angle_at_rest. cbn [INR FoldStrip.dir Nat.even].
  replace (0 * 1.5 + 1 * 0.3) with 0.3 by lra. lra.
Qed.

(** C3 as stated fails in its own scenario ([strips = 4], [width = 16],
    [height = 10], [t = 0], zero compression, zero noise): the second
    strip has a non-zero angle and the third boundary a non-zero [z]. *)
Lemma wall_at_rest_not_flat :
  let out := FoldStrip.writeVertices 16 10 4 (replicate 4 0) 0 0
               (FoldStrip.PlaneGeometry 16 10 4) in
  FoldStrip.angle (replicate 4 0) 0 0 1 <> 0
  /\ exists v, out !! 2%nat = Some v /\ FoldStrip.vz v <> 0.
Proof.
  intros out. pose proof sin_03_pos as H03.
  pose proof (SIN_bound 0.3) as Hb. pose proof PI2_3_2 as Hpi.
  split.
  - rewrite angle_rest_scenario_1. lra.
  - destruct (writeVertices_lookup 16 10 4 (replicate 4 0) 0 0
                (FoldStrip.PlaneGeometry 16 10 4) 2) as [Htop _].
    { apply PlaneGeometry_length. }
    { lia. }
    eexists. split; [exact Htop|].
    unfold FoldStrip.vz. cbn [snd]. rewrite zPositions_nth by lia.
    cbn [FoldStrip.zAt]. rewrite angle_rest_scenario_0, angle_rest_scenario_1.
    rewrite sin_0, sin_neg.
    assert (Hs : 0 < sin (0.015 * sin 0.3)) by (apply sin_gt_0; lra).
    unfold FoldStrip.segWidth. cbn [INR].
    replace (16 / (1 + 1 + 1 + 1)) with 4 by lra. lra.
Qed.

(** C3, amended. With zero effective compression (whatever the noise
    table) the fold angles are the temporal wobble alone:
    [angle_i = dir_i * 0.015 * sin(1.5 t + 0.3 i)], so [|angle_i| <= 0.015]
    and not 0 in general.  The generator writes [2 * (strips + 1)]
    vertices, top row at [y = height / 2] and bottom row at
    [y = - height / 2]; the polyline is centred ([x_0 = - x_strips],
    [z_0 = 0]), spans between [0.9998 * width] and [width] along X and
    stays within [0.015 * width] of [z = 0].  At [t = 0] the first strip
    is exactly flat: [x_1 - x_0 = width / strips] and [z_1 = 0]. *)
Theorem wall_at_rest (width height : R) (strips : nat) (noiseOffsets : list R)
    (time : R) (attr : list FoldStrip.Vec3) :
  0 <= width ->
  (1 <= strips)%nat ->
  length attr = (2 * (strips + 1))%nat ->
  let out := FoldStrip.writeVertices width height strips noiseOffsets 0 time attr in
  let x i := FoldStrip.xAt width strips noiseOffsets 0 time i
             - FoldStrip.xAt width strips noiseOffsets 0 time strips / 2 in
  let z i := FoldStrip.zAt width strips noiseOffsets 0 time i in
  (forall i,
     FoldStrip.angle noiseOffsets 0 time i
     = FoldStrip.dir i * (0.015 * sin (time * 1.5 + INR i * 0.3))
     /\ Rabs (FoldStrip.angle noiseOffsets 0 time i) <= 0.015)
  /\ length out = (2 * (strips + 1))%nat
  /\ (forall i, (i <= strips)%nat ->
        out !! i = Some (x i, height / 2, z i)
        /\ out !! (i + strips + 1)%nat = Some (x i, - (height / 2), z i)
        /\ Rabs (z i) <= 0.015 * width)
  /\ x 0%nat = - x strips
  /\ z 0%nat = 0
  /\ 0.9998 * width <= x strips - x 0%nat <= width
  /\ (time = 0 -> x 1%nat - x 0%nat = width / INR strips /\ z 1%nat = 0).
Proof.
  intros Hw Hs Hlen out x z.
  pose proof (segWidth_total width strips Hs) as Htot.
  pose proof (segWidth_nonneg width strips Hw) as Hseg.
  pose proof (xRest_bounds width strips noiseOffsets time Hw strips) as Hx.
  rewrite Htot in Hx.
  split; [|split; [|split; [|split; [|split; [|split]]]]].
  - intros i. split; [apply angle_at_rest | apply angle_at_rest_small].
  - unfold out. now rewrite writeVertices_length.
  - intros i Hi.
    destruct (writeVertices_lookup width height strips noiseOffsets 0 time attr i Hlen Hi)
      as [Htop Hbot].
    rewrite xPositions_nth, zPositions_nth in Htop, Hbot by assumption.
    unfold FoldStrip.offsetX in Htop, Hbot. rewrite totalCurrentWidth_eq in Htop, Hbot.
    assert (Hxi : FoldStrip.xAt width strips noiseOffsets 0 time i
                  + - FoldStrip.xAt width strips noiseOffsets 0 time strips / 2 = x i)
      by (unfold x; lra).
    rewrite Hxi in Htop, Hbot.
    replace (- height / 2) with (- (height / 2)) in Hbot by lra.
    split; [exact Htop|]. split; [exact Hbot|].
    pose proof (zRest_bounds width strips noiseOffsets time Hw i) as Hz.
    assert (Hle : INR i <= INR strips) by now apply le_INR.
    pose proof (pos_INR i). unfold z. nra.
  - unfold x. cbn [FoldStrip.xAt]. lra.
  - reflexivity.
  - unfold x. cbn [FoldStrip.xAt]. lra.
  - intros ->. unfold x, z. cbn [FoldStrip.xAt FoldStrip.zAt].
    rewrite angle_rest_scenario_0, cos_0, sin_0. unfold FoldStrip.segWidth. split; lra.
Qed.

Lemma wall_at_rest_witness :
  let out := FoldStrip.writeVertices 16 10 4 (replicate 4 0) 0 0
               (FoldStrip.PlaneGeometry 16 10 4) in
  length out = 10%nat.
Proof.
  intros out.
  destruct (wall_at_rest 16 10 4 (replicate 4 0) 0 (FoldStrip.PlaneGeometry 16 10 4))
    as (_ & Hlen & _).
  - lra.
  - lia.
  - apply PlaneGeometry_length.
  - exact Hlen.
Defined.

(** ** The application state machine *)

Lemma app_inv_init : app_inv App.init.
Proof. split; reflexivity. Qed.

Lemma step_next (a a' : App.t) (e : App.Event) :
  app_inv a -> App.step a e = Some a' ->
  next (App.appState a) (App.appState a') /\ app_inv a'.
Proof.
  destruct a as [st img tm]. unfold app_inv, App.step. cbn.
  intros Hinv Hstep.
  destruct e; case_decide as Hdec; try discriminate;
    injection Hstep as <-; cbn in *.
  - rewrite Hdec in *. destruct Hinv as [-> _].
    split; [constructor|]. split; [reflexivity | discriminate].
  - destruct st; try (exfalso; tauto).
    destruct Hinv as [-> Himg]. split; [constructor|]. split; [reflexivity | assumption].
  - destruct Hdec as [-> Himg]. destruct Hinv as [-> _].
    split; [constructor|]. split; reflexivity.
Qed.

Lemma run_head (a : App.t) (es : list App.Event) (tr : list AppState) :
  App.run a es = Some tr -> exists rest, tr = App.appState a :: rest.
Proof.
  destruct es as [|e es]; cbn; intros Hrun.
  - simplify_eq. eauto.
  - destruct (App.step a e) as [a'|]; cbn in Hrun; [|discriminate].
    destruct (App.run a' es) as [tr'|]; cbn in Hrun; simplify_eq. eauto.
Qed.

Lemma run_chained (es : list App.Event) :
  forall (a : App.t) (tr : list AppState),
    app_inv a -> App.run a es = Some tr -> chained tr.
Proof.
  induction es as [|e es IH]; intros a tr Hinv Hrun; cbn in Hrun.
  - simplify_eq. exact I.
  - destruct (App.step a e) as [a'|] eqn:Hstep; cbn in Hrun; [|discriminate].
    destruct (App.run a' es) as [tr'|] eqn:Hrest; cbn in Hrun; [|discriminate].
    simplify_eq.
    destruct (step_next a a' e Hinv Hstep) as [Hnext Hinv'].
    destruct (run_head a' es tr' Hrest) as [rest ->].
    cbn. split; [assumption|]. exact (IH a' _ Hinv' Hrest).
Qed.

Lemma chained_lookup (tr : list AppState) :
  chained tr -> forall (k : nat) (a b : AppState),
    tr !! k = Some a -> tr !! S k = Some b -> next a b.
Proof.
  induction tr as [|x tr IH]; intros Hch k a b Ha Hb; [discriminate|].
  destruct tr as [|y tr]; [discriminate|].
  destruct Hch as [Hxy Hch].
  destruct k as [|k]; cbn in Ha, Hb.
  - now simplify_eq.
  - exact (IH Hch k a b Ha Hb).
Qed.

(** C9 as stated fails: the run [Capture; Timeout] reaches [INTERACTIVE]
    through [IDLE] and [PROCESSING] only. *)
Lemma interactive_without_capturing :
  App.run App.init [App.Capture "selfie"; App.Timeout]
  = Some [IDLE; PROCESSING; INTERACTIVE]
  /\ ~ (forall es tr, App.run App.init es = Some tr ->
          INTERACTIVE ∈ tr -> CAPTURING ∈ tr).
Proof.
  assert (Hrun : App.run App.init [App.Capture "selfie"; App.Timeout]
                 = Some [IDLE; PROCESSING; INTERACTIVE]) by reflexivity.
  split; [exact Hrun|].
  intros Hall. specialize (Hall _ _ Hrun).
  assert (Hin : INTERACTIVE ∈ [IDLE; PROCESSING; INTERACTIVE]) by (apply list_elem_of_In; cbn; auto).
  apply Hall in Hin. apply list_elem_of_In in Hin. cbn in Hin.
  destruct Hin as [H | [H | [H | []]]]; discriminate.
Qed.

(** C9, amended. The states are visited in the order
    [IDLE -> PROCESSING -> INTERACTIVE]: every run starts in [IDLE], never
    enters [CAPTURING] (the capture happens while [IDLE]), reaches
    [INTERACTIVE] only from [PROCESSING], which it reaches only from
    [IDLE], and a reset from [INTERACTIVE] returns to [IDLE]. *)
Theorem state_order (es : list App.Event) (tr : list AppState) :
  App.run App.init es = Some tr ->
  tr !! 0%nat = Some IDLE
  /\ (CAPTURING ∉ tr)
  /\ (forall k, tr !! S k = Some INTERACTIVE -> tr !! k = Some PROCESSING)
  /\ (forall k, tr !! S k = Some PROCESSING -> tr !! k = Some IDLE)
  /\ (forall k, tr !! k = Some INTERACTIVE ->
        exists j, k = S (S j) /\ tr !! S j = Some PROCESSING /\ tr !! j = Some IDLE)
  /\ (forall k s, tr !! k = Some INTERACTIVE -> tr !! S k = Some s -> s = IDLE)
  /\ (forall a, App.appState a = INTERACTIVE -> App.capturedImage a <> None ->
        App.step a App.Reset = Some (App.handleReset a)
        /\ App.appState (App.handleReset a) = IDLE).
Proof.
  intros Hrun.
  pose proof (run_chained es App.init tr app_inv_init Hrun) as Hch.
  destruct (run_head App.init es tr Hrun) as [rest ->].
  assert (Hprev : forall k b, (App.appState App.init :: rest) !! S k = Some b ->
            exists a, (App.appState App.init :: rest) !! k = Some a /\ next a b).
  { intros k b Hb.
    destruct ((App.appState App.init :: rest) !! k) as [a|] eqn:Ha.
    - exists a. split; [reflexivity|]. eapply chained_lookup; eassumption.
    - apply lookup_ge_None in Ha. apply lookup_lt_Some in Hb. lia. }
  assert (Hint : forall k, (App.appState App.init :: rest) !! S k = Some INTERACTIVE ->
            (App.appState App.init :: rest) !! k = Some PROCESSING).
  { intros k Hk. destruct (Hprev k _ Hk) as (a & Ha & Hn). inversion Hn; now subst. }
  assert (Hpro : forall k, (App.appState App.init :: rest) !! S k = Some PROCESSING ->
            (App.appState App.init :: rest) !! k = Some IDLE).
  { intros k Hk. destruct (Hprev k _ Hk) as (a & Ha & Hn). inversion Hn; now subst. }
  split; [reflexivity|]. split; [|split; [|split; [|split; [|split]]]].
  - intros Hin. apply list_elem_of_lookup in Hin as [k Hk].
    destruct k as [|k]; [discriminate|].
    destruct (Hprev k _ Hk) as (a & _ & Hn). inversion Hn.
  - exact Hint.
  - exact Hpro.
  - intros k Hk. destruct k as [|k]; [discriminate|].
    pose proof (Hint k Hk) as Hp. destruct k as [|j]; [discriminate|].
    exists j. split; [reflexivity|]. split; [assumption|]. now apply Hpro.
  - intros k s Hk Hs. pose proof (chained_lookup _ Hch k _ _ Hk Hs) as Hn.
    inversion Hn. reflexivity.
  - intros a Hst Himg. unfold App.step. rewrite decide_True by auto. split; reflexivity.
Qed.

Lemma state_order_witness :
  [IDLE; PROCESSING; INTERACTIVE; IDLE] !! 0%nat = Some IDLE
  /\ (CAPTURING ∉ [IDLE; PROCESSING; INTERACTIVE; IDLE]).
Proof.
  destruct (state_order [App.Capture "selfie"; App.Timeout; App.Reset]
              [IDLE; PROCESSING; INTERACTIVE; IDLE]) as (H0 & Hnot & _).
  - reflexivity.
  - split; assumption.
Defined.

(** * Further properties of the source *)

(** ** The fold geometry for arbitrary inputs *)

Section GeometryFacts.
Variables (width height : R) (strips : nat) (noiseOffsets : list R).
Variables (ec time : R).

Abbreviation gx := (FoldStrip.xAt width strips noiseOffsets ec time).
Abbreviation gz := (FoldStrip.zAt width strips noiseOffsets ec time).
Abbreviation gseg := (FoldStrip.segWidth width strips).
Abbreviation gangle := (FoldStrip.angle noiseOffsets ec time).

Lemma offsetX_eq :
  FoldStrip.offsetX width strips noiseOffsets ec time = - gx strips / 2.
Proof. unfold FoldStrip.offsetX. now rewrite totalCurrentWidth_eq. Qed.

Lemma vertexRows_length :
  length (vertexRows width height strips noiseOffsets ec time) = (2 * (strips + 1))%nat.
Proof.
  unfold vertexRows. cbn zeta. rewrite length_app, !length_fmap, !length_seq. lia.
Qed.

Lemma vertexRows_top (i : nat) :
  (i <= strips)%nat ->
  vertexRows width height strips noiseOffsets ec time !! i
  = Some (gx i - gx strips / 2, height / 2, gz i).
Proof.
  intros Hi. unfold vertexRows. cbn zeta.
  rewrite lookup_app_l by (rewrite length_fmap, length_seq; lia).
  rewrite list_lookup_fmap, lookup_seq_lt by lia. cbn [fmap option_fmap option_map Nat.add].
  rewrite xPositions_nth, zPositions_nth, offsetX_eq by assumption.
  do 2 f_equal. f_equal. lra.
Qed.

Lemma vertexRows_bottom (i : nat) :
  (i <= strips)%nat ->
  vertexRows width height strips noiseOffsets ec time !! (i + strips + 1)%nat
  = Some (gx i - gx strips / 2, - height / 2, gz i).
Proof.
  intros Hi. unfold vertexRows. cbn zeta.
  rewrite lookup_app_r by (rewrite length_fmap, length_seq; lia).
  rewrite length_fmap, length_seq.
  replace (i + strips + 1 - S strips)%nat with i by lia.
  rewrite list_lookup_fmap, lookup_seq_lt by lia. cbn [fmap option_fmap option_map Nat.add].
  rewrite xPositions_nth, zPositions_nth, offsetX_eq by assumption.
  do 2 f_equal. f_equal. lra.
Qed.

Lemma xAt_bounds (lo : R) (n : nat) :
  0 <= gseg ->
  (forall i, (i < n)%nat -> lo <= cos (gangle i) <= 1) ->
  lo * (gseg * INR n) <= gx n <= gseg * INR n.
Proof.
  intros Hseg. induction n as [|n IH]; intros Hcos.
  - cbn. lra.
  - rewrite S_INR. cbn [FoldStrip.xAt].
    pose proof (Hcos n ltac:(lia)) as Hn.
    destruct IH as [IHlo IHhi]; [intros i Hi; apply Hcos; lia|]. nra.
Qed.

Lemma xAt_monotone (n m : nat) :
  0 <= gseg ->
  (forall i, (i < m)%nat -> 0 <= cos (gangle i)) ->
  (n <= m)%nat -> gx n <= gx m.
Proof.
  intros Hseg Hcos Hnm. induction Hnm as [|m Hnm IH]; [lra|].
  cbn [FoldStrip.xAt]. pose proof (Hcos m ltac:(lia)).
  specialize (IH ltac:(intros i Hi; apply Hcos; lia)). nra.
Qed.
End GeometryFacts.

(** Every cell of a buffer of the right length is overwritten. *)
Lemma writeVertices_rows (width height : R) (strips : nat) (noiseOffsets : list R)
    (ec time : R) (attr : list FoldStrip.Vec3) :
  length attr = (2 * (strips + 1))%nat ->
  FoldStrip.writeVertices width height strips noiseOffsets ec time attr
  = vertexRows width height strips noiseOffsets ec time.
Proof.
  intros Ha. apply list_eq. intros j.
  destruct (Nat.lt_ge_cases j (2 * (strips + 1))) as [Hj | Hj].
  - destruct (Nat.le_gt_cases j strips) as [Htop | Hbot].
    + destruct (writeVertices_lookup width height strips noiseOffsets ec time attr j Ha Htop)
        as [Ht _].
      etrans; [exact Ht|].
      rewrite vertexRows_top, xPositions_nth, zPositions_nth, offsetX_eq by assumption.
      do 2 f_equal. f_equal. lra.
    + replace j with (j - strips - 1 + strips + 1)%nat by lia.
      destruct (writeVertices_lookup width height strips noiseOffsets ec time attr
                  (j - strips - 1) Ha ltac:(lia)) as [_ Hb].
      etrans; [exact Hb|].
      rewrite vertexRows_bottom, xPositions_nth, zPositions_nth, offsetX_eq by lia.
      do 2 f_equal. f_equal. lra.
  - rewrite !lookup_ge_None_2; [reflexivity | |].
    + now rewrite vertexRows_length.
    + now rewrite writeVertices_length, Ha.
Qed.

(** The buffer in terms of the closed forms of the walk. *)
Lemma buffer_rows (width height : R) (strips : nat) (noiseOffsets : list R)
    (ec time : R) (attr : list FoldStrip.Vec3) :
  length attr = (2 * (strips + 1))%nat ->
  let out := FoldStrip.writeVertices width height strips noiseOffsets ec time attr in
  let x i := FoldStrip.xAt width strips noiseOffsets ec time i
             - FoldStrip.xAt width strips noiseOffsets ec time strips / 2 in
  let z i := FoldStrip.zAt width strips noiseOffsets ec time i in
  (forall i, (i <= strips)%nat -> out !! i = Some (x i, height / 2, z i))
  /\ (forall i, (i <= strips)%nat ->
        out !! (i + strips + 1)%nat = Some (x i, - height / 2, z i)).
Proof.
  intros Hlen out x z. unfold out. rewrite (writeVertices_rows _ _ _ _ _ _ _ Hlen).
  split; intros i Hi.
  - now apply vertexRows_top.
  - now apply vertexRows_bottom.
Qed.

(** X1. The second loop overwrites the whole position attribute: for a
    buffer of [2 * (strips + 1)] vertices the result is the row of top
    vertices followed by the row of bottom vertices, whatever the buffer
    held before; running the loop again on its own output changes
    nothing. *)
Theorem buffer_recomputed (width height : R) (strips : nat) (noiseOffsets : list R)
    (ec time : R) (attr : list FoldStrip.Vec3) :
  length attr = (2 * (strips + 1))%nat ->
  let out := FoldStrip.writeVertices width height strips noiseOffsets ec time attr in
  out = vertexRows width height strips noiseOffsets ec time
  /\ FoldStrip.writeVertices width height strips noiseOffsets ec time out = out.
Proof.
  intros Hlen out. unfold out.
  rewrite (writeVertices_rows _ _ _ _ _ _ _ Hlen).
  split; [reflexivity|]. apply writeVertices_rows, vertexRows_length.
Qed.

Lemma buffer_recomputed_witness :
  FoldStrip.writeVertices 16 10 4 (replicate 4 0.5) 1 0 (FoldStrip.PlaneGeometry 16 10 4)
  = vertexRows 16 10 4 (replicate 4 0.5) 1 0.
Proof.
  apply (buffer_recomputed 16 10 4 (replicate 4 0.5) 1 0 (FoldStrip.PlaneGeometry 16 10 4)).
  apply PlaneGeometry_length.
Defined.

(** X2. Folding is rigid: whatever the compression, the noise and the
    clock, two neighbouring top vertices written by the loop are exactly
    one strip width apart in the X-Z plane. *)
Theorem strips_keep_their_width (width height : R) (strips : nat)
    (noiseOffsets : list R) (ec time : R) (attr : list FoldStrip.Vec3) (i : nat) :
  length attr = (2 * (strips + 1))%nat ->
  (i < strips)%nat ->
  let out := FoldStrip.writeVertices width height strips noiseOffsets ec time attr in
  exists v v',
    out !! i = Some v /\ out !! S i = Some v'
    /\ (FoldStrip.vx v' - FoldStrip.vx v) ^ 2 + (FoldStrip.vz v' - FoldStrip.vz v) ^ 2
       = (width / INR strips) ^ 2.
Proof.
  intros Hlen Hi out.
  destruct (writeVertices_lookup width height strips noiseOffsets ec time attr i Hlen
              ltac:(lia)) as [Hv _].
  destruct (writeVertices_lookup width height strips noiseOffsets ec time attr (S i) Hlen
              ltac:(lia)) as [Hv' _].
  eexists. eexists. split; [exact Hv|]. split; [exact Hv'|].
  unfold FoldStrip.vx, FoldStrip.vz. cbn [fst snd].
  rewrite !xPositions_nth, !zPositions_nth by lia. cbn [FoldStrip.xAt FoldStrip.zAt].
  pose proof (sin2_cos2 (FoldStrip.angle noiseOffsets ec time i)) as Hsc.
  unfold Rsqr in Hsc. fold (FoldStrip.segWidth width strips).
  set (seg := FoldStrip.segWidth width strips).
  set (c := cos (FoldStrip.angle noiseOffsets ec time i)) in *.
  set (sn := sin (FoldStrip.angle noiseOffsets ec time i)) in *.
  replace ((FoldStrip.xAt width strips noiseOffsets ec time i + seg * c
            + FoldStrip.offsetX width strips noiseOffsets ec time
            - (FoldStrip.xAt width strips noiseOffsets ec time i
               + FoldStrip.offsetX width strips noiseOffsets ec time)) ^ 2
           + (FoldStrip.zAt width strips noiseOffsets ec time i + seg * sn
              - FoldStrip.zAt width strips noiseOffsets ec time i) ^ 2)
    with (seg ^ 2 * (sn * sn + c * c)) by ring.
  rewrite Hsc. ring.
Qed.

Lemma strips_keep_their_width_witness :
  let out := FoldStrip.writeVertices 16 10 4 (replicate 4 0.5) 1 0
               (FoldStrip.PlaneGeometry 16 10 4) in
  exists v v',
    out !! 1%nat = Some v /\ out !! 2%nat = Some v'
    /\ (FoldStrip.vx v' - FoldStrip.vx v) ^ 2 + (FoldStrip.vz v' - FoldStrip.vz v) ^ 2
       = (16 / INR 4) ^ 2.
Proof.
  apply (strips_keep_their_width 16 10 4 (replicate 4 0.5) 1 0
           (FoldStrip.PlaneGeometry 16 10 4) 1).
  - apply PlaneGeometry_length.
  - lia.
Defined.

Lemma cos_1415 : 0.154 <= cos 1.415.
Proof.
  destruct (pre_cos_bound 1.415 1) as [H _]; [lra | lra |].
  unfold cos_approx, cos_term in H. cbn [sum_f_R0 Nat.mul Nat.add pow fact] in H.
  rewrite !INR_IZR_INZ in H. cbv [Z.of_nat Pos.of_succ_nat Pos.succ] in H.
  lra.
Qed.

Lemma clamp_argument_range (noiseOffsets : list R) (ec time : R) (i : nat) :
  0 <= ec <= 1 -> 0 <= FoldStrip.noise noiseOffsets i < 1 ->
  -0.015 <= FoldStrip.baseAngle ec time i + FoldStrip.noise noiseOffsets i * 0.1 * ec
         <= 1.415.
Proof.
  intros Hec Hn. unfold FoldStrip.baseAngle. pose proof (wave_range time i). nra.
Qed.

Lemma cos_angle_lower (noiseOffsets : list R) (ec time : R) (i : nat) :
  0 <= ec <= 1 -> 0 <= FoldStrip.noise noiseOffsets i < 1 ->
  0.154 <= cos (FoldStrip.angle noiseOffsets ec time i) <= 1.
Proof.
  intros Hec Hn. split; [|apply COS_bound].
  pose proof (clamp_argument_range noiseOffsets ec time i Hec Hn) as Hv.
  pose proof PI_over_205_gt_1 as Hpi. pose proof PI2_3_2 as Hpi3.
  unfold FoldStrip.angle. rewrite Rmin_right by lra.
  set (v := FoldStrip.baseAngle ec time i + FoldStrip.noise noiseOffsets i * 0.1 * ec) in *.
  assert (Hcos : cos (FoldStrip.dir i * v) = cos (Rabs v)).
  { destruct (dir_cases i) as [-> | ->]; destruct (Rle_dec 0 v) as [Hpos | Hneg].
    - now rewrite Rmult_1_l, Rabs_pos_eq.
    - rewrite Rmult_1_l, Rabs_left by lra. now rewrite cos_neg.
    - rewrite Rabs_pos_eq by assumption.
      replace (-1 * v) with (- v) by ring. apply cos_neg.
    - rewrite Rabs_left by lra. f_equal. ring. }
  rewrite Hcos. eapply Rle_trans; [apply cos_1415|].
  assert (Habs : 0 <= Rabs v <= 1.415) by (split; [apply Rabs_pos | apply Rabs_le; lra]).
  apply cos_decr_1; lra.
Qed.

(** X3. For inputs in range the [Math.min] of line 90 never selects
    [PI / 2.05]: the angle is [dir * (baseAngle + noise * 0.1 * ec)] and
    stays within 1.415 rad. *)
Theorem clamp_never_engages (strips : nat) (noiseOffsets : list R)
    (ec time : R) (i : nat) :
  noise_table strips noiseOffsets ->
  0 <= ec <= 1 ->
  (i < strips)%nat ->
  FoldStrip.angle noiseOffsets ec time i
  = FoldStrip.dir i
    * (FoldStrip.baseAngle ec time i + FoldStrip.noise noiseOffsets i * 0.1 * ec)
  /\ FoldStrip.baseAngle ec time i + FoldStrip.noise noiseOffsets i * 0.1 * ec < PI / 2.05
  /\ Rabs (FoldStrip.angle noiseOffsets ec time i) <= 1.415.
Proof.
  intros Hnoise Hec Hi.
  pose proof (noise_range strips noiseOffsets i Hnoise Hi) as Hn.
  pose proof (clamp_argument_range noiseOffsets ec time i Hec Hn) as Hv.
  pose proof PI2_3_2 as Hpi3.
  assert (Hlt : FoldStrip.baseAngle ec time i + FoldStrip.noise noiseOffsets i * 0.1 * ec
                < PI / 2.05) by lra.
  unfold FoldStrip.angle. rewrite Rmin_right by lra.
  split; [reflexivity|]. split; [assumption|].
  apply Rabs_le. destruct (dir_cases i) as [-> | ->]; lra.
Qed.

Lemma clamp_never_engages_witness :
  Rabs (FoldStrip.angle [0.5; 0.25] 1 0 1) <= 1.415.
Proof.
  apply (clamp_never_engages 2 [0.5; 0.25] 1 0 1).
  - split; [reflexivity|]. repeat constructor; lra.
  - lra.
  - lia.
Defined.

Lemma folded_total (width : R) (strips : nat) (noiseOffsets : list R) (ec time : R) :
  0 <= width -> (1 <= strips)%nat -> noise_table strips noiseOffsets -> 0 <= ec <= 1 ->
  0 <= FoldStrip.xAt width strips noiseOffsets ec time strips <= width.
Proof.
  intros Hw Hs Hnoise Hec.
  pose proof (xAt_bounds width strips noiseOffsets ec time 0.154 strips
                (segWidth_nonneg width strips Hw)) as Hb.
  rewrite (segWidth_total width strips Hs) in Hb.
  destruct Hb as [Hlo Hhi].
  { intros i Hi. apply cos_angle_lower; [assumption|]. eapply noise_range; eassumption. }
  lra.
Qed.

(** X4. For a wall of non-negative width with [strips >= 1] strips and
    inputs in range, the folded wall spans at most its flat width and at
    least 15.4 percent of it along X. *)
Theorem folded_width_bounds (width : R) (strips : nat) (noiseOffsets : list R)
    (ec time : R) :
  0 <= width ->
  (1 <= strips)%nat ->
  noise_table strips noiseOffsets ->
  0 <= ec <= 1 ->
  0.154 * width <= FoldStrip.totalCurrentWidth width strips noiseOffsets ec time <= width.
Proof.
  intros Hw Hs Hnoise Hec. rewrite totalCurrentWidth_eq.
  pose proof (xAt_bounds width strips noiseOffsets ec time 0.154 strips
                (segWidth_nonneg width strips Hw)) as Hb.
  rewrite (segWidth_total width strips Hs) in Hb. apply Hb.
  intros i Hi. apply cos_angle_lower; [assumption|].
  eapply noise_range; eassumption.
Qed.

Lemma folded_width_bounds_witness :
  0.154 * 16 <= FoldStrip.totalCurrentWidth 16 2 [0.5; 0.25] 1 0 <= 16.
Proof.
  apply (folded_width_bounds 16 2 [0.5; 0.25] 1 0).
  - lra.
  - lia.
  - split; [reflexivity|]. repeat constructor; lra.
  - lra.
Defined.

(** X5. The wall stays centred on its flat footprint: the first and the
    last top vertex are mirror images in X with the first at [z = 0],
    and for inputs in range every written vertex has [|x| <= width / 2]. *)
Theorem wall_stays_centred (width height : R) (strips : nat) (noiseOffsets : list R)
    (ec time : R) (attr : list FoldStrip.Vec3) :
  0 <= width ->
  (1 <= strips)%nat ->
  noise_table strips noiseOffsets ->
  0 <= ec <= 1 ->
  length attr = (2 * (strips + 1))%nat ->
  let out := FoldStrip.writeVertices width height strips noiseOffsets ec time attr in
  (exists first last,
      out !! 0%nat = Some first /\ out !! strips = Some last
      /\ FoldStrip.vx first = - FoldStrip.vx last /\ FoldStrip.vz first = 0)
  /\ forall j v, out !! j = Some v -> Rabs (FoldStrip.vx v) <= width / 2.
Proof.
  intros Hw Hs Hnoise Hec Hlen out.
  destruct (buffer_rows width height strips noiseOffsets ec time attr Hlen) as [Htop Hbot].
  fold out in Htop, Hbot.
  pose proof (segWidth_nonneg width strips Hw) as Hseg.
  assert (Hcos : forall i, (i < strips)%nat ->
            0 <= cos (FoldStrip.angle noiseOffsets ec time i)).
  { intros i Hi.
    pose proof (cos_angle_lower noiseOffsets ec time i Hec
                  (noise_range strips noiseOffsets i Hnoise Hi)). lra. }
  pose proof (folded_total width strips noiseOffsets ec time Hw Hs Hnoise Hec) as Htot.
  assert (Hx : forall i, (i <= strips)%nat ->
            Rabs (FoldStrip.xAt width strips noiseOffsets ec time i
                  - FoldStrip.xAt width strips noiseOffsets ec time strips / 2) <= width / 2).
  { intros i Hi.
    pose proof (xAt_monotone width strips noiseOffsets ec time 0 i Hseg
                  ltac:(intros k Hk; apply Hcos; lia) ltac:(lia)) as H0.
    pose proof (xAt_monotone width strips noiseOffsets ec time i strips Hseg Hcos Hi) as H1.
    cbn [FoldStrip.xAt] in H0. apply Rabs_le. lra. }
  split.
  - eexists. eexists. split; [apply Htop; lia|]. split; [apply Htop; lia|].
    unfold FoldStrip.vx, FoldStrip.vz. cbn [fst snd FoldStrip.xAt FoldStrip.zAt].
    split; lra.
  - intros j v Hj. pose proof (lookup_lt_Some _ _ _ Hj) as Hlt.
    unfold out in Hlt. rewrite writeVertices_length, Hlen in Hlt.
    destruct (Nat.le_gt_cases j strips) as [Hjt | Hjb].
    + pose proof (Htop j Hjt) as Ht.
      assert (Heq : Some v = Some (FoldStrip.xAt width strips noiseOffsets ec time j
                                   - FoldStrip.xAt width strips noiseOffsets ec time strips / 2,
                                   height / 2,
                                   FoldStrip.zAt width strips noiseOffsets ec time j))
        by (etrans; [symmetry; exact Hj | exact Ht]).
      injection Heq as ->. unfold FoldStrip.vx. cbn [fst]. now apply Hx.
    + pose proof (Hbot (j - strips - 1)%nat ltac:(lia)) as Hb.
      replace (j - strips - 1 + strips + 1)%nat with j in Hb by lia.
      assert (Heq : Some v = Some (FoldStrip.xAt width strips noiseOffsets ec time (j - strips - 1)
                                   - FoldStrip.xAt width strips noiseOffsets ec time strips / 2,
                                   - height / 2,
                                   FoldStrip.zAt width strips noiseOffsets ec time (j - strips - 1)))
        by (etrans; [symmetry; exact Hj | exact Hb]).
      injection Heq as ->. unfold FoldStrip.vx. cbn [fst]. apply Hx. lia.
Qed.

Lemma wall_stays_centred_witness :
  let out := FoldStrip.writeVertices 16 10 2 [0.5; 0.25] 1 0 (FoldStrip.PlaneGeometry 16 10 2) in
  exists first last,
    out !! 0%nat = Some first /\ out !! 2%nat = Some last
    /\ FoldStrip.vx first = - FoldStrip.vx last /\ FoldStrip.vz first = 0.
Proof.
  apply (wall_stays_centred 16 10 2 [0.5; 0.25] 1 0 (FoldStrip.PlaneGeometry 16 10 2)).
  - lra.
  - lia.
  - split; [reflexivity|]. repeat constructor; lra.
  - lra.
  - apply PlaneGeometry_length.
Defined.

(** ** The wobble is periodic *)

Lemma wave_periodic (time : R) (i : nat) :
  FoldStrip.wave (time + 4 * PI / 3) i = FoldStrip.wave time i.
Proof.
  unfold FoldStrip.wave. f_equal.
  replace ((time + 4 * PI / 3) * 1.5 + INR i * 0.3)
    with (time * 1.5 + INR i * 0.3 + 2 * INR 1 * PI) by (cbn [INR]; lra).
  apply sin_period.
Qed.

Lemma angle_periodic (noiseOffsets : list R) (ec time : R) (i : nat) :
  FoldStrip.angle noiseOffsets ec (time + 4 * PI / 3) i
  = FoldStrip.angle noiseOffsets ec time i.
Proof. unfold FoldStrip.angle, FoldStrip.baseAngle. now rewrite wave_periodic. Qed.

Lemma walk_periodic (width : R) (strips : nat) (noiseOffsets : list R) (ec time : R) :
  FoldStrip.walk width strips noiseOffsets ec (time + 4 * PI / 3)
  = FoldStrip.walk width strips noiseOffsets ec time.
Proof.
  unfold FoldStrip.walk. generalize (0, [0], [0]) as w. generalize (seq 0 strips) as idx.
  induction idx as [|i idx IH]; intros w; [reflexivity|].
  cbn [fold_left]. rewrite <- IH. f_equal.
  unfold FoldStrip.walkStep. destruct w as [[cx xs0] zs0]. now rewrite angle_periodic.
Qed.

(** X6. The geometry repeats with the clock: [4 * PI / 3] seconds later
    every fold angle, and with it the whole vertex buffer written by the
    loop, is the same. *)
Theorem geometry_periodic (width height : R) (strips : nat) (noiseOffsets : list R)
    (ec time : R) (attr : list FoldStrip.Vec3) :
  (forall i, FoldStrip.angle noiseOffsets ec (time + 4 * PI / 3) i
             = FoldStrip.angle noiseOffsets ec time i)
  /\ FoldStrip.writeVertices width height strips noiseOffsets ec (time + 4 * PI / 3) attr
     = FoldStrip.writeVertices width height strips noiseOffsets ec time attr.
Proof.
  split; [intros i; apply angle_periodic|].
  unfold FoldStrip.writeVertices, FoldStrip.writeStep, FoldStrip.offsetX,
    FoldStrip.totalCurrentWidth, FoldStrip.xPositions, FoldStrip.zPositions.
  now rewrite walk_periodic.
Qed.

(** ** The mesh rotation *)

Lemma lerp_within (b x y t : R) :
  0 <= t <= 1 -> Rabs x <= b -> Rabs y <= b -> Rabs (MathUtils.lerp x y t) <= b.
Proof.
  intros Ht Hx Hy. apply Rabs_le_between in Hx. apply Rabs_le_between in Hy.
  unfold MathUtils.lerp. apply Rabs_le. split; nra.
Qed.

Lemma useFrame_in_range (width height : R) (strips : nat) (noiseOffsets : list R)
    (c : FoldControlData.t) (p : FoldStrip.Pointer) (t : R) (s : FoldStrip.FrameState) :
  control_in_range c -> pointer_in_range p ->
  control_in_range (FoldStrip.currentStats s) ->
  Rabs (FoldStrip.rotation_x s) <= 0.65 -> Rabs (FoldStrip.rotation_y s) <= 0.6 ->
  let s' := FoldStrip.useFrame width height strips noiseOffsets c p t s in
  control_in_range (FoldStrip.currentStats s')
  /\ Rabs (FoldStrip.rotation_x s') <= 0.65
  /\ Rabs (FoldStrip.rotation_y s') <= 0.6.
Proof.
  intros (Hc1 & Hc2 & Hc3) (Hp1 & Hp2) (Hs1 & Hs2 & Hs3) Hrx Hry s'.
  assert (Hstats : control_in_range (FoldStrip.currentStats s')).
  { unfold s'. rewrite useFrame_currentStats. unfold control_in_range, FoldStrip.smooth.
    cbn [FoldControlData.compression FoldControlData.tiltX FoldControlData.tiltY].
    unfold MathUtils.lerp. repeat split; nra. }
  split; [assumption|].
  destruct Hstats as (_ & Ht2 & Ht3).
  unfold s' in *. cbn [FoldStrip.useFrame FoldStrip.rotation_x FoldStrip.rotation_y
                       FoldStrip.currentStats] in *.
  split; (apply lerp_within; [lra | assumption | apply Rabs_le; lra]).
Qed.

(** X7. Along any run from the mounted mesh whose control cells and
    pointers are in range, the smoothed state stays in range and the mesh
    never turns further than 0.65 rad about X and 0.6 rad about Y. *)
Theorem rotation_bounded (width height : R) (strips : nat) (noiseOffsets : list R)
    (inputs : list (FoldControlData.t * FoldStrip.Pointer * R)) :
  inputs_in_range inputs ->
  let s := FoldStrip.frames width height strips noiseOffsets inputs
             (FoldStrip.mounted width height strips) in
  control_in_range (FoldStrip.currentStats s)
  /\ Rabs (FoldStrip.rotation_x s) <= 0.65
  /\ Rabs (FoldStrip.rotation_y s) <= 0.6.
Proof.
  induction inputs as [|[[c p] t] inputs IH] using rev_ind; intros Hin; cbn zeta.
  - cbn. rewrite Rabs_R0. unfold control_in_range. cbn. lra.
  - apply Forall_app in Hin as [Hin Hlast].
    apply Forall_cons in Hlast as [[Hc Hp] _]. cbn in Hc, Hp.
    destruct (IH Hin) as (Hs & Hrx & Hry).
    rewrite frames_snoc. now apply useFrame_in_range.
Qed.

Lemma rotation_bounded_witness :
  let s := FoldStrip.frames 16 10 2 [0.5; 0.25]
             [(FoldControlData.mk 1 1 (-1), FoldStrip.mkPointer 1 1, 0)]
             (FoldStrip.mounted 16 10 2) in
  Rabs (FoldStrip.rotation_x s) <= 0.65.
Proof.
  apply (rotation_bounded 16 10 2 [0.5; 0.25]
           [(FoldControlData.mk 1 1 (-1), FoldStrip.mkPointer 1 1, 0)]).
  repeat constructor; cbn; lra.
Defined.

(** X8. With the control cell and the pointer held still the rotation
    about X follows a closed form: its distance to half the combined tilt
    is [(e - 0.95 d) * 0.9 ^ n + 0.95 d * 0.95 ^ n] after [n] frames,
    where [e] is the initial distance and [d] the initial lag of the
    smoothed tilt; so it never exceeds [(|e| + 1.9 |d|) * 0.95 ^ n], and a
    mesh that has arrived stays where it is.  The same holds about Y. *)
Theorem rotation_settles (width height : R) (strips : nat) (noiseOffsets : list R)
    (c : FoldControlData.t) (p : FoldStrip.Pointer)
    (inputs : list (FoldControlData.t * FoldStrip.Pointer * R))
    (s : FoldStrip.FrameState) :
  held_still c p inputs ->
  let sn := FoldStrip.frames width height strips noiseOffsets inputs s in
  let n := length inputs in
  let ex := FoldStrip.rotation_x s - restRotationX c p in
  let dx := FoldControlData.tiltY (FoldStrip.currentStats s) - FoldControlData.tiltY c in
  let ey := FoldStrip.rotation_y s - restRotationY c p in
  let dy := FoldControlData.tiltX (FoldStrip.currentStats s) - FoldControlData.tiltX c in
  FoldStrip.rotation_x sn - restRotationX c p
    = (ex - 0.95 * dx) * 0.9 ^ n + 0.95 * dx * 0.95 ^ n
  /\ FoldStrip.rotation_y sn - restRotationY c p
    = (ey - 0.95 * dy) * 0.9 ^ n + 0.95 * dy * 0.95 ^ n
  /\ Rabs (FoldStrip.rotation_x sn - restRotationX c p) <= (Rabs ex + 1.9 * Rabs dx) * 0.95 ^ n
  /\ Rabs (FoldStrip.rotation_y sn - restRotationY c p) <= (Rabs ey + 1.9 * Rabs dy) * 0.95 ^ n
  /\ (ex = 0 -> dx = 0 -> FoldStrip.rotation_x sn = FoldStrip.rotation_x s)
  /\ (ey = 0 -> dy = 0 -> FoldStrip.rotation_y sn = FoldStrip.rotation_y s).
Proof.
  intros Hheld sn n ex dx ey dy.
  assert (Hform :
    FoldStrip.rotation_x sn - restRotationX c p
      = (ex - 0.95 * dx) * 0.9 ^ n + 0.95 * dx * 0.95 ^ n
    /\ FoldStrip.rotation_y sn - restRotationY c p
      = (ey - 0.95 * dy) * 0.9 ^ n + 0.95 * dy * 0.95 ^ n).
  { subst sn n. induction inputs as [|[[c' p'] t] inputs IH] using rev_ind.
    - cbn. unfold ex, ey. split; ring.
    - apply Forall_app in Hheld as [Hheld Hlast].
      apply Forall_cons in Hlast as [Heq _]. cbn in Heq. injection Heq as -> ->.
      destruct (IH Hheld) as [IHx IHy].
      assert (Hc : constant_target c inputs).
      { eapply Forall_impl; [exact Hheld|]. intros i Hi. now rewrite Hi. }
      destruct (frames_error width height strips noiseOffsets c inputs s Hc)
        as (_ & HtX & HtY).
      cbn zeta in HtX, HtY. fold dx in HtY. fold dy in HtX.
      rewrite frames_snoc, length_app. cbn [length]. rewrite Nat.add_1_r. cbn [pow].
      cbn [FoldStrip.useFrame FoldStrip.rotation_x FoldStrip.rotation_y
           FoldStrip.smooth FoldControlData.tiltX FoldControlData.tiltY].
      unfold restRotationX, restRotationY, MathUtils.lerp in *.
      set (rx := FoldStrip.rotation_x (FoldStrip.frames width height strips noiseOffsets inputs s)) in *.
      set (ry := FoldStrip.rotation_y (FoldStrip.frames width height strips noiseOffsets inputs s)) in *.
      set (tx := FoldControlData.tiltX (FoldStrip.currentStats
                   (FoldStrip.frames width height strips noiseOffsets inputs s))) in *.
      set (ty := FoldControlData.tiltY (FoldStrip.currentStats
                   (FoldStrip.frames width height strips noiseOffsets inputs s))) in *.
      split; lra. }
  destruct Hform as [Hx Hy].
  pose proof (pow_decay 0.9 n ltac:(lra)) as H9.
  pose proof (pow_decay 0.95 n ltac:(lra)) as H95.
  assert (Hle : 0.9 ^ n <= 0.95 ^ n) by (apply pow_incr; lra).
  assert (Hbound : forall e d, Rabs ((e - 0.95 * d) * 0.9 ^ n + 0.95 * d * 0.95 ^ n)
                               <= (Rabs e + 1.9 * Rabs d) * 0.95 ^ n).
  { intros e d.
    eapply Rle_trans; [apply Rabs_triang|].
    rewrite !Rabs_mult, (Rabs_pos_eq (0.9 ^ n)), (Rabs_pos_eq (0.95 ^ n)), (Rabs_pos_eq 0.95)
      by lra.
    pose proof (Rabs_triang e (- (0.95 * d))) as Htri.
    rewrite Rabs_Ropp, Rabs_mult, (Rabs_pos_eq 0.95) in Htri by lra.
    replace (e + - (0.95 * d)) with (e - 0.95 * d) in Htri by ring.
    pose proof (Rabs_pos e). pose proof (Rabs_pos d). pose proof (Rabs_pos (e - 0.95 * d)).
    nra. }
  split; [exact Hx|]. split; [exact Hy|].
  split; [rewrite Hx; apply Hbound|]. split; [rewrite Hy; apply Hbound|].
  split.
  - intros He Hd. rewrite He, Hd in Hx. unfold ex in He. lra.
  - intros He Hd. rewrite He, Hd in Hy. unfold ey in He. lra.
Qed.

Lemma rotation_settles_witness :
  let c := FoldControlData.mk 0 1 1 in
  let p := FoldStrip.mkPointer 0 0 in
  let sn := FoldStrip.frames 16 10 2 [0.5; 0.25] (replicate 2 (c, p, 0))
              (FoldStrip.mounted 16 10 2) in
  FoldStrip.rotation_x sn - restRotationX c p
  = (0 - restRotationX c p - 0.95 * (0 - 1)) * 0.9 ^ 2 + 0.95 * (0 - 1) * 0.95 ^ 2.
Proof.
  intros c p sn.
  pose proof (rotation_settles 16 10 2 [0.5; 0.25] c p (replicate 2 (c, p, 0))
                (FoldStrip.mounted 16 10 2)) as H.
  cbn zeta in H. destruct H as (Hx & _).
  - now apply Forall_replicate.
  - exact Hx.
Defined.

(** ** The hand sample and the control cell *)

Lemma sample_of_hand (landmarks : list (Landmark.t R))
    (others : list (list (Landmark.t R))) (data : HandControlData.t R) :
  HandController.predictWebcam (landmarks :: others) = Some data ->
  exists wrist tip knuckle,
    landmarks !! 0%nat = Some wrist /\ landmarks !! 12%nat = Some tip
    /\ landmarks !! 9%nat = Some knuckle
    /\ data = HandControlData.mk
                (HandController.compressionOfRatio
                   (HandController.extension wrist tip / HandController.handSize wrist knuckle))
                ((1 - Landmark.x knuckle) * 2 - 1)
                (- (Landmark.y knuckle * 2 - 1))
                true.
Proof.
  unfold HandController.predictWebcam.
  destruct (landmarks !! 0%nat) as [wrist|]; [|discriminate].
  destruct (landmarks !! 12%nat) as [tip|]; [|discriminate].
  destruct (landmarks !! 9%nat) as [knuckle|]; [|discriminate].
  cbn. intros [= <-]. exists wrist, tip, knuckle. repeat split; reflexivity.
Qed.

(** X9. For proper hands (normalized landmarks, [handSize <> 0]) every
    emitted sample, tracked or not, has its compression in [[0,1]] and its
    position in [[-1,1]²], and the control cell [handleHandUpdate] stores
    is in range whatever it held before. *)
Theorem sample_in_range (results : list (list (Landmark.t R)))
    (data : HandControlData.t R) (controlRef : FoldControlData.t) :
  Forall proper_hand results ->
  HandController.predictWebcam results = Some data ->
  0 <= HandControlData.compression data <= 1
  /\ -1 <= HandControlData.x data <= 1
  /\ -1 <= HandControlData.y data <= 1
  /\ control_in_range (Scene3D.handleHandUpdate controlRef data).
Proof.
  intros Hnorm Hdata.
  assert (Hrange : 0 <= HandControlData.compression data <= 1
                   /\ -1 <= HandControlData.x data <= 1
                   /\ -1 <= HandControlData.y data <= 1).
  { destruct results as [|landmarks others].
    - cbn in Hdata. injection Hdata as <-. cbn. lra.
    - apply Forall_cons in Hnorm as [[Hhand _] _].
      destruct (sample_of_hand landmarks others data Hdata)
        as (wrist & tip & knuckle & _ & _ & Hk & ->).
      pose proof (proj1 (Forall_lookup _ landmarks) Hhand _ _ Hk) as [Hx Hy].
      cbn [HandControlData.compression HandControlData.x HandControlData.y].
      rewrite compressionOfRatio_R.
      pose proof (clamp01_range
                    ((HandController.extension wrist tip / HandController.handSize wrist knuckle
                      - 0.9) / 0.8)).
      lra. }
  split; [tauto|]. split; [tauto|]. split; [tauto|].
  unfold Scene3D.handleHandUpdate, control_in_range.
  destruct (HandControlData.isTracking data); cbn; lra.
Qed.

Lemma sample_in_range_witness :
  exists data,
    HandController.predictWebcam [upright_hand] = Some data
    /\ -1 <= HandControlData.x data <= 1.
Proof.
  destruct (HandController.predictWebcam [upright_hand]) as [data|] eqn:Hd;
    [|discriminate].
  exists data. split; [reflexivity|].
  apply (sample_in_range [upright_hand] data (FoldControlData.mk 0 0 0)); [|exact Hd].
  constructor; [apply upright_hand_proper | constructor].
Defined.

(** X10. The compression never grows with the ratio, and between the two
    thresholds it is the linear ramp [(1.7 - ratio) / 0.8]. *)
Theorem compression_ramp (ratio ratio' : R) :
  ratio <= ratio' ->
  HandController.compressionOfRatio ratio' <= HandController.compressionOfRatio ratio
  /\ (0.9 <= ratio <= 1.7 ->
      HandController.compressionOfRatio ratio = (1.7 - ratio) / 0.8).
Proof.
  intros Hle. rewrite !compressionOfRatio_R. unfold clamp01. split.
  - assert (Hv : (ratio - 0.9) / 0.8 <= (ratio' - 0.9) / 0.8) by lra.
    assert (Hmin : Rmin 1 ((ratio - 0.9) / 0.8) <= Rmin 1 ((ratio' - 0.9) / 0.8)).
    { apply Rmin_glb; [apply Rmin_l|]. eapply Rle_trans; [apply Rmin_r | exact Hv]. }
    pose proof (Rle_max_compat_l _ _ 0 Hmin). lra.
  - intros Hr. rewrite Rmin_right by lra. rewrite Rmax_right by lra. lra.
Qed.

Lemma compression_ramp_witness :
  HandController.compressionOfRatio 1.3 = (1.7 - 1.3) / 0.8.
Proof.
  apply (compression_ramp 1.3 1.3); lra.
Defined.

Lemma distance_similar (k dx dy : R) (a b : Landmark.t R) :
  0 <= k ->
  HandController.handSize (similar k dx dy a) (similar k dx dy b)
  = k * HandController.handSize a b.
Proof.
  intros Hk. unfold HandController.handSize, Math_pow2, similar. cbn.
  set (u := Landmark.x b - Landmark.x a). set (v := Landmark.y b - Landmark.y a).
  replace ((k * Landmark.x b + dx - (k * Landmark.x a + dx))
           * (k * Landmark.x b + dx - (k * Landmark.x a + dx))
           + (k * Landmark.y b + dy - (k * Landmark.y a + dy))
             * (k * Landmark.y b + dy - (k * Landmark.y a + dy)))
    with ((k * k) * (u * u + v * v)) by (unfold u, v; ring).
  rewrite sqrt_mult by nra. now rewrite sqrt_square.
Qed.

(** X11. The compression does not depend on where the hand is in the
    image nor on how large it appears: moving every landmark by the same
    similarity [p |-> k * p + (dx, dy)], [k > 0], of a hand with
    [handSize <> 0] leaves the emitted compression unchanged. *)
Theorem compression_scale_invariant (k dx dy : R) (landmarks : list (Landmark.t R))
    (others : list (list (Landmark.t R))) (wrist tip knuckle : Landmark.t R) :
  0 < k ->
  landmarks !! 0%nat = Some wrist ->
  landmarks !! 12%nat = Some tip ->
  landmarks !! 9%nat = Some knuckle ->
  HandController.handSize wrist knuckle <> 0 ->
  exists data data',
    HandController.predictWebcam (landmarks :: others) = Some data
    /\ HandController.predictWebcam ((similar k dx dy <$> landmarks) :: others) = Some data'
    /\ HandControlData.compression data' = HandControlData.compression data.
Proof.
  intros Hk Hw Ht Hkn Hsize.
  unfold HandController.predictWebcam.
  rewrite !list_lookup_fmap, Hw, Ht, Hkn. cbn [fmap option_fmap option_map mbind option_bind].
  eexists. eexists. split; [reflexivity|]. split; [reflexivity|].
  cbn [HandControlData.compression]. f_equal.
  change (HandController.extension (similar k dx dy wrist) (similar k dx dy tip))
    with (HandController.handSize (similar k dx dy wrist) (similar k dx dy tip)).
  change (HandController.extension wrist tip) with (HandController.handSize wrist tip).
  rewrite !distance_similar by lra. cbn [ndiv JSNumber_R]. field. split; lra.
Qed.

Lemma compression_scale_invariant_witness :
  exists data data',
    HandController.predictWebcam [upright_hand] = Some data
    /\ HandController.predictWebcam [similar 0.5 0.1 0.2 <$> upright_hand] = Some data'
    /\ HandControlData.compression data' = HandControlData.compression data.
Proof.
  apply (compression_scale_invariant 0.5 0.1 0.2 upright_hand []
           (Landmark.mk 0.5 0.8 0) (Landmark.mk 0.5 0.4 0) (Landmark.mk 0.5 0.6 0));
    try reflexivity.
  - lra.
  - apply upright_handSize.
Defined.

(** X12. Whatever the arithmetic, a detected hand yields a sample exactly
    when it has at least 13 landmarks (otherwise reading a missing
    landmark throws), and only the first hand of the result is used. *)
Theorem short_hand_throws {num : Type} `{!JSNumber num}
    (landmarks : list (Landmark.t num)) (others : list (list (Landmark.t num))) :
  (is_Some (HandController.predictWebcam (landmarks :: others))
   <-> (13 <= length landmarks)%nat)
  /\ HandController.predictWebcam (landmarks :: others)
     = HandController.predictWebcam [landmarks].
Proof.
  split; [|reflexivity].
  unfold HandController.predictWebcam. split.
  - intros [data Hd].
    destruct (landmarks !! 0%nat); [|discriminate].
    destruct (landmarks !! 12%nat) eqn:H12; [|discriminate].
    apply lookup_lt_Some in H12. lia.
  - intros Hlen.
    destruct (lookup_lt_is_Some_2 landmarks 0%nat ltac:(lia)) as [w ->].
    destruct (lookup_lt_is_Some_2 landmarks 12%nat ltac:(lia)) as [t ->].
    destruct (lookup_lt_is_Some_2 landmarks 9%nat ltac:(lia)) as [m ->].
    cbn. eauto.
Qed.

(** ** The hand loop and the render loop together *)

Section SceneFacts.
Variables (width height : R) (strips : nat) (noiseOffsets : list R).

Abbreviation sstep := (Scene.step width height strips noiseOffsets).
Abbreviation srun := (Scene.run width height strips noiseOffsets).
Abbreviation sreads := (Scene.reads width height strips noiseOffsets).
Abbreviation sinit := (Scene.init width height strips).

Lemma srun_snoc (es : list Scene.Event) (e : Scene.Event) (s : Scene.t) :
  srun (es ++ [e]) s = sstep (srun es s) e.
Proof. unfold Scene.run. now rewrite fold_left_app. Qed.

Lemma tick_cases (last time : R) (results : list (list (Landmark.t R))) :
  PredictLoop.tick true last time results
  = if Req_dec_T time last then (last, PredictLoop.Skipped)
    else match HandController.predictWebcam results with
         | Some data => (time, PredictLoop.Updated data)
         | None => (time, PredictLoop.Threw)
         end.
Proof. reflexivity. Qed.

Lemma tick_same_time (time : R) (results : list (list (Landmark.t R))) :
  PredictLoop.tick true time time results = (time, PredictLoop.Skipped).
Proof.
  rewrite tick_cases. destruct (Req_dec_T time time) as [_ | Hne]; [reflexivity|].
  now destruct Hne.
Qed.

(** Render frames of a run form a run of [useFrame]. *)
Lemma srun_frame (es : list Scene.Event) :
  forall s, Scene.frame (srun es s)
            = FoldStrip.frames width height strips noiseOffsets (sreads es s) (Scene.frame s).
Proof.
  induction es as [|e es IH]; intros s; [reflexivity|].
  change (srun (e :: es) s) with (srun es (sstep s e)). rewrite IH.
  destruct e as [ready time results | pointer time]; cbn [Scene.reads].
  - f_equal. cbn [Scene.step]. destruct (Scene.looping s); [|reflexivity].
    now destruct (PredictLoop.tick ready (Scene.lastVideoTime s) time results).
  - reflexivity.
Qed.

Lemma sstep_control_in_range (s : Scene.t) (e : Scene.Event) :
  event_in_range e -> control_in_range (Scene.controlRef s) ->
  control_in_range (Scene.controlRef (sstep s e)).
Proof.
  intros He Hc. destruct e as [ready time results | pointer time]; [|exact Hc].
  cbn [Scene.step]. destruct (Scene.looping s); [|exact Hc].
  unfold PredictLoop.tick. destruct (negb ready); [exact Hc|].
  destruct (Req_dec_T time (Scene.lastVideoTime s)); [exact Hc|].
  destruct (HandController.predictWebcam results) as [data|] eqn:Hd; [|exact Hc].
  cbn [Scene.controlRef].
  unfold Scene3D.handleHandUpdate, control_in_range.
  destruct (HandControlData.isTracking data) eqn:Htr; [|cbn; lra].
  cbn [FoldControlData.compression FoldControlData.tiltX FoldControlData.tiltY].
  destruct results as [|landmarks others].
  - cbn in Hd. injection Hd as <-. discriminate.
  - cbn in He. apply Forall_cons in He as [[Hhand _] _].
    destruct (sample_of_hand landmarks others data Hd)
      as (wrist & tip & knuckle & _ & _ & Hk & ->).
    pose proof (proj1 (Forall_lookup _ landmarks) Hhand _ _ Hk) as [Hx Hy].
    cbn [HandControlData.compression HandControlData.x HandControlData.y].
    rewrite compressionOfRatio_R.
    pose proof (clamp01_range
                  ((HandController.extension wrist tip / HandController.handSize wrist knuckle
                    - 0.9) / 0.8)).
    lra.
Qed.

Lemma sreads_in_range (es : list Scene.Event) :
  forall s, Forall event_in_range es -> control_in_range (Scene.controlRef s) ->
            inputs_in_range (sreads es s)
            /\ control_in_range (Scene.controlRef (srun es s)).
Proof.
  induction es as [|e es IH]; intros s Hes Hc.
  - split; [constructor | exact Hc].
  - apply Forall_cons in Hes as [He Hes].
    pose proof (sstep_control_in_range s e He Hc) as Hc'.
    destruct (IH (sstep s e) Hes Hc') as [Hin Hlast].
    change (srun (e :: es) s) with (srun es (sstep s e)).
    split; [|exact Hlast].
    destruct e as [ready time results | pointer time]; cbn [Scene.reads]; [exact Hin|].
    constructor; [|exact Hin]. split; [exact Hc | exact He].
Qed.
End SceneFacts.

(** X13. A video frame is never processed twice: handling the same
    video time again, whatever the landmarker would return, leaves the
    whole scene as it is. *)
Theorem video_frame_processed_once (width height : R) (strips : nat) (noiseOffsets : list R)
    (s : Scene.t) (time : R) (results results' : list (list (Landmark.t R))) :
  let s1 := Scene.step width height strips noiseOffsets s (Scene.HandTick true time results) in
  Scene.step width height strips noiseOffsets s1 (Scene.HandTick true time results') = s1.
Proof.
  destruct s as [last looping cell fr]. destruct looping; [|reflexivity].
  intros s1.
  assert (Hs1 : s1 = Scene.mk last true cell fr
                \/ (exists data, s1 = Scene.mk time true (Scene3D.handleHandUpdate cell data) fr)
                \/ s1 = Scene.mk time false cell fr).
  { unfold s1. cbn [Scene.step Scene.looping Scene.lastVideoTime Scene.controlRef Scene.frame].
    rewrite tick_cases.
    destruct (Req_dec_T time last) as [Heq | Hne]; [left; reflexivity|].
    destruct (HandController.predictWebcam results) as [data|]; [|right; right; reflexivity].
    right; left. exists data. reflexivity. }
  destruct (Req_dec_T time last) as [Heq | Hne].
  - assert (Hskip : s1 = Scene.mk last true cell fr).
    { unfold s1. cbn [Scene.step Scene.looping Scene.lastVideoTime Scene.controlRef Scene.frame].
      rewrite tick_cases. destruct (Req_dec_T time last); [reflexivity | contradiction]. }
    rewrite Hskip. subst time.
    cbn [Scene.step Scene.looping Scene.lastVideoTime Scene.controlRef Scene.frame].
    now rewrite tick_same_time.
  - destruct Hs1 as [Hs | [[data Hs] | Hs]]; rewrite Hs;
      cbn [Scene.step Scene.looping Scene.lastVideoTime Scene.controlRef Scene.frame].
    + rewrite tick_cases. destruct (Req_dec_T time last); [contradiction|].
      exfalso. unfold s1 in Hs.
      cbn [Scene.step Scene.looping Scene.lastVideoTime Scene.controlRef Scene.frame] in Hs.
      rewrite tick_cases in Hs. destruct (Req_dec_T time last); [contradiction|].
      destruct (HandController.predictWebcam results); injection Hs; intros; contradiction.
    + now rewrite tick_same_time.
    + reflexivity.
Qed.

(** X14. The hand loop does not recover: once an invocation finds the
    landmarker not ready, or meets a hand with fewer than 13 landmarks on
    a new video frame, no later event changes the control cell, so the
    wall keeps the last hand state. *)
Theorem stopped_loop_keeps_control (width height : R) (strips : nat) (noiseOffsets : list R)
    (s : Scene.t) (ready : bool) (time : R) (results : list (list (Landmark.t R)))
    (es : list Scene.Event) :
  Scene.looping s = true ->
  ready = false
  \/ (time <> Scene.lastVideoTime s
      /\ exists landmarks others, results = landmarks :: others
                                  /\ (length landmarks < 13)%nat) ->
  let s1 := Scene.step width height strips noiseOffsets s (Scene.HandTick ready time results) in
  Scene.looping s1 = false
  /\ Scene.controlRef s1 = Scene.controlRef s
  /\ Scene.controlRef (Scene.run width height strips noiseOffsets es s1) = Scene.controlRef s.
Proof.
  intros Hloop Hcause s1.
  assert (Hs1 : Scene.looping s1 = false /\ Scene.controlRef s1 = Scene.controlRef s).
  { unfold s1. cbn [Scene.step]. rewrite Hloop.
    destruct Hcause as [-> | (Hne & landmarks & others & -> & Hlen)].
    - cbn. split; reflexivity.
    - destruct ready; [|cbn; split; reflexivity].
      rewrite tick_cases.
      destruct (Req_dec_T time (Scene.lastVideoTime s)) as [Heq | _]; [contradiction|].
      destruct (HandController.predictWebcam (landmarks :: others)) as [data|] eqn:Hd.
      + exfalso.
        destruct (sample_of_hand landmarks others data Hd) as (_ & tip & _ & _ & H12 & _).
        apply lookup_lt_Some in H12. lia.
      + cbn. split; reflexivity. }
  destruct Hs1 as [Hdead Hcell]. split; [exact Hdead|]. split; [exact Hcell|].
  rewrite <- Hcell.
  assert (Hkeep : forall es',
            Scene.looping (Scene.run width height strips noiseOffsets es' s1) = false
            /\ Scene.controlRef (Scene.run width height strips noiseOffsets es' s1)
               = Scene.controlRef s1).
  { induction es' as [|e' es' IH'] using rev_ind; [split; [exact Hdead | reflexivity]|].
    rewrite srun_snoc. destruct IH' as [Hl Hc].
    destruct e' as [r t q | p t]; cbn [Scene.step].
    - rewrite Hl. split; assumption.
    - cbn. split; assumption. }
  apply Hkeep.
Qed.

Lemma stopped_loop_keeps_control_witness :
  let s := Scene.step 16 10 2 [0.5; 0.25] (Scene.init 16 10 2)
             (Scene.HandTick true 0 [upright_hand]) in
  let s1 := Scene.step 16 10 2 [0.5; 0.25] s (Scene.HandTick false 1 []) in
  Scene.controlRef
    (Scene.run 16 10 2 [0.5; 0.25] [Scene.HandTick true 2 []] s1)
  = Scene.controlRef s.
Proof.
  intros s s1.
  apply (stopped_loop_keeps_control 16 10 2 [0.5; 0.25] s false 1 []
           [Scene.HandTick true 2 []]).
  - unfold s. cbn [Scene.step Scene.init Scene.looping Scene.lastVideoTime].
    rewrite tick_cases. destruct (Req_dec_T 0 (-1)) as [Heq | _]; [lra|]. reflexivity.
  - left. reflexivity.
Defined.

(** X15. Whatever way hand-loop invocations and render frames
    interleave from the start of the scene, if the hands are proper
    (normalized landmarks, [handSize <> 0]) and the pointer is in
    [[-1,1]²] then the render frames
    form a run of [useFrame] from the mounted mesh whose inputs are all
    in range, the control cell is in range, the smoothed state is in
    range, the buffer keeps its [2 * (strips + 1)] vertices and the mesh
    rotation stays within 0.65 rad about X and 0.6 rad about Y. *)
Theorem scene_safe (width height : R) (strips : nat) (noiseOffsets : list R)
    (es : list Scene.Event) :
  Forall event_in_range es ->
  let s := Scene.run width height strips noiseOffsets es (Scene.init width height strips) in
  let inputs := Scene.reads width height strips noiseOffsets es (Scene.init width height strips) in
  Scene.frame s
  = FoldStrip.frames width height strips noiseOffsets inputs
      (FoldStrip.mounted width height strips)
  /\ inputs_in_range inputs
  /\ control_in_range (Scene.controlRef s)
  /\ control_in_range (FoldStrip.currentStats (Scene.frame s))
  /\ length (FoldStrip.position (Scene.frame s)) = (2 * (strips + 1))%nat
  /\ Rabs (FoldStrip.rotation_x (Scene.frame s)) <= 0.65
  /\ Rabs (FoldStrip.rotation_y (Scene.frame s)) <= 0.6.
Proof.
  intros Hes s inputs.
  assert (Hinit : control_in_range (Scene.controlRef (Scene.init width height strips))).
  { unfold control_in_range. cbn. lra. }
  destruct (sreads_in_range width height strips noiseOffsets es _ Hes Hinit) as [Hin Hcell].
  fold inputs in Hin. fold s in Hcell.
  pose proof (srun_frame width height strips noiseOffsets es (Scene.init width height strips))
    as Hframe.
  fold s inputs in Hframe. cbn [Scene.init Scene.frame] in Hframe.
  split; [exact Hframe|]. split; [exact Hin|]. split; [exact Hcell|].
  rewrite Hframe.
  split; [|split; [apply frames_position_length|]].
  - clear Hframe. induction inputs as [|[[c p] t] inputs IH] using rev_ind.
    + unfold control_in_range. cbn. lra.
    + apply Forall_app in Hin as [Hin Hlast]. apply Forall_cons in Hlast as [[Hc _] _].
      cbn in Hc. destruct Hc as (Hc1 & Hc2 & Hc3).
      destruct (IH Hin) as (H1 & H2 & H3).
      rewrite frames_snoc, useFrame_currentStats.
      unfold control_in_range, FoldStrip.smooth, MathUtils.lerp. cbn. repeat split; nra.
  - clear Hframe.
    assert (Hall : control_in_range
                     (FoldStrip.currentStats
                        (FoldStrip.frames width height strips noiseOffsets inputs
                           (FoldStrip.mounted width height strips)))
                   /\ Rabs (FoldStrip.rotation_x
                              (FoldStrip.frames width height strips noiseOffsets inputs
                                 (FoldStrip.mounted width height strips))) <= 0.65
                   /\ Rabs (FoldStrip.rotation_y
                              (FoldStrip.frames width height strips noiseOffsets inputs
                                 (FoldStrip.mounted width height strips))) <= 0.6).
    { induction inputs as [|[[c p] t] inputs IH] using rev_ind.
      - cbn. rewrite Rabs_R0. unfold control_in_range. cbn. lra.
      - apply Forall_app in Hin as [Hin Hlast]. apply Forall_cons in Hlast as [[Hc Hp] _].
        cbn in Hc, Hp. destruct (IH Hin) as (Hs & Hrx & Hry).
        rewrite frames_snoc. now apply useFrame_in_range. }
    tauto.
Qed.

Lemma scene_safe_witness :
  let es := [Scene.HandTick true 0 [upright_hand]; Scene.RenderFrame (FoldStrip.mkPointer 1 0) 0] in
  control_in_range (Scene.controlRef (Scene.run 16 10 2 [0.5; 0.25] es (Scene.init 16 10 2))).
Proof.
  intros es.
  apply (scene_safe 16 10 2 [0.5; 0.25] es).
  constructor.
  - cbn. constructor; [apply upright_hand_proper | constructor].
  - constructor; [|constructor]. cbn. unfold pointer_in_range. cbn. lra.
Defined.

(** ** What [App] shows *)

Lemma exec_snoc (es : list App.Event) (e : App.Event) :
  forall a, AppView.exec a (es ++ [e]) = (a' ← AppView.exec a es; App.step a' e).
Proof.
  induction es as [|e0 es IH]; intros a; cbn.
  - now destruct (App.step a e).
  - destruct (App.step a e0) as [a0|]; cbn; [apply IH | reflexivity].
Qed.

Lemma lastCapture_snoc (es : list App.Event) (e : App.Event) :
  forall acc, AppView.lastCapture (es ++ [e]) acc
              = match e with
                | App.Capture img => Some img
                | _ => AppView.lastCapture es acc
                end.
Proof.
  induction es as [|e0 es IH]; intros acc; cbn.
  - now destruct e.
  - destruct e0; apply IH.
Qed.

Lemma succ_mod3 (n : nat) :
  (S n mod 3 = match n mod 3 with 0 => 1 | 1 => 2 | _ => 0 end)%nat.
Proof.
  pose proof (Nat.mod_upper_bound n 3 ltac:(lia)) as Hn.
  pose proof (Nat.div_mod_eq n 3) as Hd.
  pose proof (Nat.mod_upper_bound (S n) 3 ltac:(lia)) as Hs.
  pose proof (Nat.div_mod_eq (S n) 3) as Hds.
  destruct (n mod 3)%nat as [|[|[|k]]]; lia.
Qed.

(** The component state reached by a run, in full. *)
Lemma exec_shape (es : list App.Event) (a : App.t) :
  Forall capture_nonempty es ->
  AppView.exec App.init es = Some a ->
  App.appState a = AppView.stateAfter (length es)
  /\ match App.appState a with
     | IDLE => a = App.mk IDLE None 0
     | CAPTURING => False
     | PROCESSING =>
         exists img, img <> EmptyString /\ AppView.lastCapture es None = Some img
                     /\ a = App.mk PROCESSING (Some img) 1
     | INTERACTIVE =>
         exists img, img <> EmptyString /\ AppView.lastCapture es None = Some img
                     /\ a = App.mk INTERACTIVE (Some img) 0
     end.
Proof.
  revert a. induction es as [|e es IH] using rev_ind; intros a Hne Hexec.
  - cbn in Hexec. injection Hexec as <-. split; reflexivity.
  - apply Forall_app in Hne as [Hne Hlast]. apply Forall_cons in Hlast as [He _].
    rewrite exec_snoc in Hexec.
    destruct (AppView.exec App.init es) as [a0|] eqn:H0; [|discriminate].
    cbn in Hexec. destruct (IH a0 Hne eq_refl) as [Hst Hshape].
    rewrite length_app. cbn [length]. rewrite Nat.add_1_r.
    unfold AppView.stateAfter in *. rewrite succ_mod3. rewrite lastCapture_snoc.
    destruct a0 as [st img tm]. cbn [App.appState] in *.
    unfold App.step in Hexec. cbn [App.appState App.timers App.capturedImage] in Hexec.
    destruct st; try contradiction.
    + injection Hshape as -> ->.
      destruct e as [img' | | ]; case_decide as Hdec; try discriminate; try contradiction;
        injection Hexec as <-; cbn [App.appState].
      * destruct (length es mod 3)%nat as [|[|k]]; try discriminate.
        split; [reflexivity|]. exists img'. split; [|split; reflexivity].
        destruct img'; [contradiction | discriminate].
      * destruct Hdec; discriminate.
    + destruct Hshape as (i & Hi & Hlc & Heq). injection Heq as -> ->.
      destruct e as [img' | | ]; case_decide as Hdec; try discriminate;
        injection Hexec as <-; cbn [App.appState].
      * destruct (length es mod 3)%nat as [|[|k]]; try discriminate.
        split; [reflexivity|]. exists i. repeat split; assumption.
      * destruct Hdec; discriminate.
    + destruct Hshape as (i & Hi & Hlc & Heq). injection Heq as -> ->.
      destruct e as [img' | | ]; case_decide as Hdec; try discriminate; try contradiction;
        injection Hexec as <-; cbn [App.appState].
      destruct (length es mod 3)%nat as [|[|k]]; try discriminate.
      split; reflexivity.
Qed.

(** X16. In every state a run of [App] can reach (captures hand over a
    non-empty image) exactly one of the three views is rendered; at most
    one timer is pending, and only while [PROCESSING]; an image is held
    exactly when the state is not [IDLE]; and the interactive scene shows
    the most recently captured image. *)
Theorem app_shows_one_view (es : list App.Event) (a : App.t) :
  Forall capture_nonempty es ->
  AppView.exec App.init es = Some a ->
  length (AppView.render a) = 1%nat
  /\ (App.timers a <= 1)%nat
  /\ (App.timers a = 1%nat <-> App.appState a = PROCESSING)
  /\ (App.capturedImage a = None <-> App.appState a = IDLE)
  /\ (App.appState a = IDLE -> AppView.render a = [AppView.CameraInterfaceView])
  /\ (App.appState a = INTERACTIVE ->
      exists img, AppView.lastCapture es None = Some img
                  /\ AppView.render a = [AppView.Scene3DView img]).
Proof.
  intros Hne Hexec. destruct (exec_shape es a Hne Hexec) as [_ Hshape].
  destruct (App.appState a) eqn:Hst; try contradiction.
  - subst a. cbn. repeat split; try reflexivity; try lia; try discriminate.
  - destruct Hshape as (img & Himg & Hlc & ->). cbn.
    repeat split; try reflexivity; try lia; try discriminate.
  - destruct Hshape as (img & Himg & Hlc & ->).
    assert (Hrender : AppView.render (App.mk INTERACTIVE (Some img) 0)
                      = [AppView.Scene3DView img]).
    { unfold AppView.render. cbn. destruct img; [contradiction | reflexivity]. }
    rewrite Hrender. cbn.
    repeat split; try reflexivity; try lia; try discriminate.
    intros _. exists img. split; [assumption | reflexivity].
Qed.

Lemma app_shows_one_view_witness :
  length (AppView.render (App.mk INTERACTIVE (Some "data:image/jpeg;base64,AA"%string) 0)) = 1%nat.
Proof.
  apply (app_shows_one_view [App.Capture "data:image/jpeg;base64,AA"; App.Timeout]).
  - repeat constructor.
  - reflexivity.
Defined.



(** ** The mood service *)

Lemma strip_append (p rest : string) : GeminiService.strip p (p ++ rest) = Some rest.
Proof.
  induction p as [|a p IH]; [reflexivity|].
  cbn. now rewrite Ascii.eqb_refl.
Qed.

Lemma strip_sound (p s rest : string) :
  GeminiService.strip p s = Some rest -> s = (p ++ rest)%string.
Proof.
  revert s. induction p as [|a p IH]; intros s Hs.
  - cbn in Hs. now injection Hs as ->.
  - destruct s as [|b s]; [discriminate|]. cbn in Hs.
    destruct (Ascii.eqb a b) eqn:Hab; [|discriminate].
    apply Ascii.eqb_eq in Hab as ->. cbn. f_equal. now apply IH.
Qed.

(** X18. The data-URL header is removed exactly when present: an image
    that starts with one of the three headers [data:image/png;base64,],
    [data:image/jpeg;base64,] or [data:image/jpg;base64,] is cut down to
    what follows the header, any other string is passed on unchanged, and
    in both cases the input is the output behind a possibly empty header. *)
Theorem cleanBase64_payload (payload image : string) :
  GeminiService.cleanBase64 ("data:image/png;base64," ++ payload) = payload
  /\ GeminiService.cleanBase64 ("data:image/jpeg;base64," ++ payload) = payload
  /\ GeminiService.cleanBase64 ("data:image/jpg;base64," ++ payload) = payload
  /\ (GeminiService.strip "data:image/" image = None ->
      GeminiService.cleanBase64 image = image)
  /\ exists header, image = (header ++ GeminiService.cleanBase64 image)%string
                    /\ (header = ""%string \/ header = "data:image/png;base64,"%string
                        \/ header = "data:image/jpeg;base64,"%string
                        \/ header = "data:image/jpg;base64,"%string).
Proof.
  split; [|split; [|split; [|split]]].
  - unfold GeminiService.cleanBase64. now rewrite strip_append.
  - reflexivity.
  - reflexivity.
  - intros Hnone. unfold GeminiService.cleanBase64.
    destruct (GeminiService.strip "data:image/png;base64," image) as [r|] eqn:H1.
    { apply strip_sound in H1. subst image. cbn in Hnone. discriminate. }
    destruct (GeminiService.strip "data:image/jpeg;base64," image) as [r|] eqn:H2.
    { apply strip_sound in H2. subst image. cbn in Hnone. discriminate. }
    destruct (GeminiService.strip "data:image/jpg;base64," image) as [r|] eqn:H3.
    { apply strip_sound in H3. subst image. cbn in Hnone. discriminate. }
    reflexivity.
  - unfold GeminiService.cleanBase64.
    destruct (GeminiService.strip "data:image/png;base64," image) as [r|] eqn:H1.
    { apply strip_sound in H1. eauto 6. }
    destruct (GeminiService.strip "data:image/jpeg;base64," image) as [r|] eqn:H2.
    { apply strip_sound in H2. eauto 6. }
    destruct (GeminiService.strip "data:image/jpg;base64," image) as [r|] eqn:H3.
    { apply strip_sound in H3. eauto 6. }
    exists ""%string. split; [reflexivity | auto].
Qed.

Lemma cleanBase64_payload_witness :
  GeminiService.cleanBase64 "selfie" = "selfie"%string.
Proof.
  apply (cleanBase64_payload "" "selfie"). reflexivity.
Defined.

(** X19. [analyzeSelfieMood] never answers with the empty string,
    whatever the model returns and however the text is trimmed.  Without
    an API key it answers [Unknown] without consulting the model.  With a
    key its answer depends on the model only through the reply to the
    cleaned image data: [Error] when the request is rejected, [Neutral]
    when the reply has no text or only text that trims to nothing, and
    the trimmed text otherwise. *)
Theorem mood_never_empty (trim : string -> string)
    (generateContent generateContent' : string -> GeminiService.Response)
    (apiKey : option string) (base64Image : string) :
  let mood := GeminiService.analyzeSelfieMood trim generateContent apiKey base64Image in
  let reply := generateContent (GeminiService.cleanBase64 base64Image) in
  mood <> ""%string
  /\ (apiKey = None \/ apiKey = Some ""%string -> mood = "Unknown"%string)
  /\ (reply = generateContent' (GeminiService.cleanBase64 base64Image) ->
      mood = GeminiService.analyzeSelfieMood trim generateContent' apiKey base64Image)
  /\ (forall key, apiKey = Some key -> key <> ""%string ->
        (reply = GeminiService.Rejected -> mood = "Error"%string)
        /\ (reply = GeminiService.Resolved None -> mood = "Neutral"%string)
        /\ (forall text, reply = GeminiService.Resolved (Some text) ->
              (trim text = ""%string -> mood = "Neutral"%string)
              /\ (trim text <> ""%string -> mood = trim text))).
Proof.
  cbn zeta. unfold GeminiService.analyzeSelfieMood.
  split; [|split; [|split]].
  - destruct apiKey as [[|k ks]|]; try discriminate.
    destruct (generateContent (GeminiService.cleanBase64 base64Image)) as [|[text|]];
      try discriminate.
    destruct (trim text); discriminate.
  - intros [-> | ->]; reflexivity.
  - intros Heq. destruct apiKey as [[|k ks]|]; try reflexivity. now rewrite Heq.
  - intros key -> Hkey. destruct key as [|k ks]; [contradiction|].
    split; [|split].
    + intros ->. reflexivity.
    + intros ->. reflexivity.
    + intros text ->. split.
      * intros ->. reflexivity.
      * intros Hne. destruct (trim text); [contradiction | reflexivity].
Qed.

Lemma mood_never_empty_witness :
  GeminiService.analyzeSelfieMood (fun s => s) (fun _ => GeminiService.Rejected)
    (Some "key"%string) "selfie" = "Error"%string.
Proof.
  pose proof (mood_never_empty (fun s => s) (fun _ => GeminiService.Rejected)
                (fun _ => GeminiService.Rejected) (Some "key"%string) "selfie") as H.
  cbn zeta in H. destruct H as (_ & _ & _ & H).
  destruct (H "key"%string eq_refl ltac:(discriminate)) as (Hrejected & _).
  apply Hrejected. reflexivity.
Defined.

(** ** What the fold shape depends on *)

(** X20. The vertices a frame writes depend on the smoothed compression,
    on [|pointer.x|] and on the clock only: two frames at the same time
    that agree on these write the same buffer, whatever the tilts, the
    sign of [pointer.x], [pointer.y], the mesh rotation and the previous
    contents of the buffer. *)
Theorem shape_ignores_tilt (width height : R) (strips : nat) (noiseOffsets : list R)
    (c c' : FoldControlData.t) (p p' : FoldStrip.Pointer) (time : R)
    (s s' : FoldStrip.FrameState) :
  length (FoldStrip.position s) = (2 * (strips + 1))%nat ->
  length (FoldStrip.position s') = (2 * (strips + 1))%nat ->
  FoldControlData.compression (FoldStrip.currentStats s)
  = FoldControlData.compression (FoldStrip.currentStats s') ->
  FoldControlData.compression c = FoldControlData.compression c' ->
  Rabs (FoldStrip.pointer_x p) = Rabs (FoldStrip.pointer_x p') ->
  FoldStrip.position (FoldStrip.useFrame width height strips noiseOffsets c p time s)
  = FoldStrip.position (FoldStrip.useFrame width height strips noiseOffsets c' p' time s').
Proof.
  intros Hlen Hlen' Hs Hc Hp.
  cbn [FoldStrip.useFrame FoldStrip.position].
  rewrite (writeVertices_rows _ _ _ _ _ _ _ Hlen), (writeVertices_rows _ _ _ _ _ _ _ Hlen').
  unfold FoldStrip.effectiveCompression, FoldStrip.mouseCompression, FoldStrip.smooth.
  cbn [FoldControlData.compression]. now rewrite Hs, Hc, Hp.
Qed.

Lemma shape_ignores_tilt_witness :
  FoldStrip.position
    (FoldStrip.useFrame 16 10 2 [0.5; 0.25] (FoldControlData.mk 0.5 1 (-1))
       (FoldStrip.mkPointer 0.5 1) 0 (FoldStrip.mounted 16 10 2))
  = FoldStrip.position
      (FoldStrip.useFrame 16 10 2 [0.5; 0.25] (FoldControlData.mk 0.5 0 0)
         (FoldStrip.mkPointer (-0.5) 0) 0 (FoldStrip.mounted 16 10 2)).
Proof.
  apply (shape_ignores_tilt 16 10 2 [0.5; 0.25]); try reflexivity;
    try apply PlaneGeometry_length.
  cbn. rewrite <- (Rabs_Ropp 0.5). f_equal. lra.
Defined.
